(** * animate.py: differential terminal animation

    A shallow embedding of [src/animate.py] and the properties of its
    frame model, line differ, renderer, playback loop and frame loader.

    Conventions of the embedding.
    - A Python [str] is a [string]; one [ascii] is one code point below 256.
    - A Python [int] is a [Z]; [len] is [Z.of_nat] of a length.
    - [Optional[str]] is [option string]: [None] is "no row".
    - Calls on the output stream are recorded in order as a list of [op];
      a method that only writes is the list of calls it makes. *)

From Stdlib Require Import String Ascii List ZArith Lia Bool Arith PeanoNat.
From Stdlib Require Import QArith.QArith_base.
From Stdlib Require Import DecimalString.
From Stdlib Require DecimalPos.
From Stdlib Require Import Sorting.Sorted Sorting.Permutation.
Import ListNotations.

Open Scope string_scope.
Open Scope Z_scope.

(** ** Python strings *)

Module Py.

Definition len (s : string) : Z := Z.of_nat (String.length s).

Definition code (c : ascii) : nat := nat_of_ascii c.

Definition between (lo hi : nat) (c : ascii) : bool :=
  (lo <=? code c)%nat && (code c <=? hi)%nat.

Definition LF : ascii := "010"%char.
Definition CR : ascii := "013"%char.
Definition ESC : ascii := "027"%char.

(** The line boundaries of [str.splitlines] among the code points below
    256: \n \v \f \r, the separators 0x1c 0x1d 0x1e and NEL 0x85. *)
Definition is_linebreak (c : ascii) : bool :=
  between 10 13 c || between 28 30 c || (code c =? 133)%nat.

(** [acc] holds the characters of the row being read.  \r\n counts as one
    boundary; text after the last boundary is a row only when non-empty. *)
Fixpoint splitlines_from (acc : string) (s : string) : list string :=
  match s with
  | EmptyString => match acc with EmptyString => [] | _ => [acc] end
  | String c rest =>
      if is_linebreak c then
        acc :: match rest with
               | String d rest' =>
                   if Ascii.eqb c CR && Ascii.eqb d LF
                   then splitlines_from "" rest'
                   else splitlines_from "" rest
               | EmptyString => splitlines_from "" rest
               end
      else splitlines_from (acc ++ String c "") rest
  end.

Definition splitlines (s : string) : list string := splitlines_from "" s.

Fixpoint rev_string (acc s : string) : string :=
  match s with
  | EmptyString => acc
  | String c rest => rev_string (String c acc) rest
  end.

Definition startswith (s p : string) : bool := String.prefix p s.

Definition endswith (s p : string) : bool :=
  String.prefix (rev_string "" p) (rev_string "" s).

(** [s.split(sep)] for a one-character separator. *)
Fixpoint split_from (sep : ascii) (acc : string) (s : string) : list string :=
  match s with
  | EmptyString => [acc]
  | String c rest =>
      if Ascii.eqb c sep then acc :: split_from sep "" rest
      else split_from sep (acc ++ String c "") rest
  end.

Definition split (sep : ascii) (s : string) : list string :=
  split_from sep "" s.

(** [s[:-k]] *)
Definition drop_last (k : nat) (s : string) : string :=
  String.substring 0 (String.length s - k) s.

(** [str(n)] and [{n}] in an f-string. *)
Definition str_of_int (n : Z) : string := NilZero.string_of_int (Z.to_int n).

End Py.

(** ** Frame *)

(** The attributes [__init__] sets.  A frame is built by [Frame_init] and
    its attributes are never assigned again. *)
Record Frame := mkFrame {
  name : string;
  lines : list string;
  height : Z;
  width : Z
}.

(** The regular expression of [strip_ansi]:
    ESC (?: [@-Z\\-_] | \[ [0-?]* [ -/]* [@-~] ) *)
Definition is_two_char_final (c : ascii) : bool :=
  Py.between 64 90 c || Py.between 92 95 c.
Definition is_csi_param (c : ascii) : bool := Py.between 48 63 c.
Definition is_csi_inter (c : ascii) : bool := Py.between 32 47 c.
Definition is_csi_final (c : ascii) : bool := Py.between 64 126 c.

Fixpoint csi_inter_len (s : string) : option nat :=
  match s with
  | EmptyString => None
  | String c rest =>
      if is_csi_inter c then option_map S (csi_inter_len rest)
      else if is_csi_final c then Some 1%nat
      else None
  end.

Fixpoint csi_param_len (s : string) : option nat :=
  match s with
  | EmptyString => None
  | String c rest =>
      if is_csi_param c then option_map S (csi_param_len rest)
      else csi_inter_len s
  end.

(** Number of characters of the match anchored at the start of [s], if the
    expression matches there.  The three classes of the CSI branch are
    pairwise disjoint, so the greedy scan is the only way to match. *)
Definition escape_match_len (s : string) : option nat :=
  match s with
  | String e (String c rest) =>
      if Ascii.eqb e Py.ESC then
        if is_two_char_final c then Some 2%nat
        else if Ascii.eqb c "["%char then option_map (fun n => S (S n)) (csi_param_len rest)
        else None
      else None
  | _ => None
  end.

(** [re.sub(pattern, '', text)]: [skip] counts the characters of the
    current match still to be dropped. *)
Fixpoint strip_from (skip : nat) (s : string) : string :=
  match s with
  | EmptyString => EmptyString
  | String c rest =>
      match skip with
      | S k => strip_from k rest
      | O =>
          match escape_match_len s with
          | Some n => strip_from (Nat.pred n) rest
          | None => String c (strip_from 0 rest)
          end
      end
  end.

Definition strip_ansi (text : string) : string := strip_from 0 text.

(** [max(...)] over a non-empty generator. *)
Definition max_of (x : Z) (xs : list Z) : Z := fold_left Z.max xs x.

Definition Frame_init (name content : string) : Frame :=
  let lines := Py.splitlines content in
  let height := Z.of_nat (List.length lines) in
  let width :=
    match map (fun line => Py.len (strip_ansi line)) lines with
    | [] => 0
    | w :: ws => max_of w ws
    end in
  mkFrame name lines height width.

(** [self.lines[y] if 0 <= y < self.height else None] *)
Definition get_line (f : Frame) (y : Z) : option string :=
  if (0 <=? y) && (y <? height f) then nth_error (lines f) (Z.to_nat y)
  else None.

(** ** Calls on the output stream *)

(** One call made by the program on [stdout] (or [time.sleep], [print]).
    The control calls are kept apart by what they ask of the terminal;
    [written] gives the text each one passes to [stdout.write]. *)
Inductive op :=
| HideCursor
| ShowCursor
| ClearScreen
| EraseLine
| EnableSync
| DisableSync
| MoveCursor (x y : Z)
| Text (s : string)
| Flush
| Sleep (d : Q)
| Print (s : string).

Definition esc (s : string) : string := String Py.ESC s.

Definition hide_cursor : string := esc "[?25l".
Definition show_cursor : string := esc "[?25h".
Definition clear : string := esc "[2J" ++ esc "[H".
Definition erase_line : string := esc "[2K".
Definition enable_sync_rendering : string := esc "[?2026h".
Definition disable_sync_rendering : string := esc "[?2026l".

Definition move_cursor (x y : Z) : string :=
  esc "[" ++ Py.str_of_int (y + 1) ++ ";" ++ Py.str_of_int (x + 1) ++ "H".

(** The characters a call sends to the terminal. *)
Definition written (o : op) : string :=
  match o with
  | HideCursor => hide_cursor
  | ShowCursor => show_cursor
  | ClearScreen => clear
  | EraseLine => erase_line
  | EnableSync => enable_sync_rendering
  | DisableSync => disable_sync_rendering
  | MoveCursor x y => move_cursor x y
  | Text s => s
  | Print s => s ++ String Py.LF ""
  | Flush => ""
  | Sleep _ => ""
  end.

Definition sent (os : list op) : string :=
  fold_right (fun o rest => written o ++ rest) "" os.

Definition enable_synchronized_mode : list op := [EnableSync; Flush].
Definition disable_synchronized_mode : list op := [DisableSync; Flush].

(** ** LineDiffer *)

Definition find_line_differences (old_line new_line : option string)
  : list (Z * string) :=
  match old_line, new_line with
  | None, None => []
  | None, Some n => [(0, n)]
  | Some _, None => [(0, "")]
  | Some o, Some n => if negb (String.eqb o n) then [(0, n)] else []
  end.

(** Truth value of a Python list. *)
Definition truthy {A} (l : list A) : bool :=
  match l with [] => false | _ => true end.

(** ** Rendering *)

(** [range(a, b)] *)
Definition range (a b : Z) : list Z :=
  map (fun i => a + Z.of_nat i) (seq 0 (Z.to_nat (b - a))).

(** [enumerate(l)] *)
Definition enumerate {A} (l : list A) : list (Z * A) :=
  combine (range 0 (Z.of_nat (List.length l))) l.

Definition render_frame (frame : Frame) : list op :=
  [ClearScreen]
  ++ flat_map (fun '(y, line) => [MoveCursor 0 y; Text line])
              (enumerate (lines frame))
  ++ [Flush].

(** Body of the first loop of [render_frame_difference]. *)
Definition render_row_difference (current next_frame : Frame) (y : Z)
  : list op :=
  let current_line := get_line current y in
  let next_line := get_line next_frame y in
  let differences := find_line_differences current_line next_line in
  if truthy differences then
    [MoveCursor 0 y; EraseLine]
    ++ match next_line with
       | Some l => [Text l]
       | None => []
       end
  else [].

(** Body of the second loop: clear a row left over from a taller frame. *)
Definition erase_row (y : Z) : list op := [MoveCursor 0 y; EraseLine].

Definition render_frame_difference (current next_frame : Frame) : list op :=
  let max_height := Z.max (height current) (height next_frame) in
  flat_map (render_row_difference current next_frame) (range 0 max_height)
  ++ (if height next_frame <? height current
      then flat_map erase_row (range (height next_frame) (height current))
      else [])
  ++ [Flush].

(** ** Exceptions, interrupts and the running program *)

Inductive exn :=
| KeyboardInterrupt
| ValueError (msg : string)
| FileError (msg : string).   (* OSError / UnicodeDecodeError of a file call *)

(** [isinstance(e, Exception)]: [KeyboardInterrupt] derives from
    [BaseException] only. *)
Definition is_Exception (e : exn) : bool :=
  match e with KeyboardInterrupt => false | _ => true end.

Definition is_KeyboardInterrupt (e : exn) : bool :=
  match e with KeyboardInterrupt => true | _ => false end.

(** [str(e)] *)
Definition exn_str (e : exn) : string :=
  match e with
  | KeyboardInterrupt => ""
  | ValueError msg => msg
  | FileError msg => msg
  end.

Inductive result (A : Type) :=
| Ok (a : A)
| Err (e : exn).
Arguments Ok {A} a.
Arguments Err {A} e.

(** How a run ends: it returns, an exception leaves it, or it is still
    going when the step budget of the model is used up. *)
Inductive outcome (A : Type) :=
| Done (a : A)
| Raised (e : exn)
| Running.
Arguments Done {A} a.
Arguments Raised {A} e.
Arguments Running {A}.

(** [trace]: the calls made so far, oldest first.  [sigint]: [Some k] when
    the interrupt signal arrives after [k] more calls, [None] when no
    signal is on its way. *)
Record world := mkWorld {
  trace : list op;
  sigint : option nat
}.

Definition M (A : Type) : Type := world -> outcome A * world.

Definition ret {A} (a : A) : M A := fun w => (Done a, w).

Definition raise {A} (e : exn) : M A := fun w => (Raised e, w).

Definition bind {A B} (m : M A) (k : A -> M B) : M B :=
  fun w =>
    match m w with
    | (Done a, w') => k a w'
    | (Raised e, w') => (Raised e, w')
    | (Running, w') => (Running, w')
    end.

Notation "m ;; k" := (bind m (fun _ => k)) (at level 61, right associativity).

(** One call; the pending signal, once due, raises [KeyboardInterrupt]
    in place of the call.  A signal that arrives between two calls, or
    during a sleep or a write, leaves the same trace as one that replaces
    the call it precedes or cuts short. *)
Definition call (o : op) : M unit :=
  fun w =>
    match sigint w with
    | Some O => (Raised KeyboardInterrupt, mkWorld (trace w) None)
    | Some (S k) => (Done tt, mkWorld (trace w ++ [o]) (Some k))
    | None => (Done tt, mkWorld (trace w ++ [o]) None)
    end.

Fixpoint calls (os : list op) : M unit :=
  match os with
  | [] => ret tt
  | o :: os' => call o ;; calls os'
  end.

(** [try: body / except <catches> as e: handler(e)] *)
Definition try_except {A} (body : M A) (catches : exn -> bool)
    (handler : exn -> M A) : M A :=
  fun w =>
    match body w with
    | (Raised e, w') => if catches e then handler e w' else (Raised e, w')
    | other => other
    end.

(** [try: body / finally: final] *)
Definition try_finally {A} (body : M A) (final : M unit) : M A :=
  fun w =>
    match body w with
    | (Running, w') => (Running, w')
    | (res, w') =>
        match final w' with
        | (Done _, w'') => (res, w'')
        | (Raised e, w'') => (Raised e, w'')
        | (Running, w'') => (Running, w'')
        end
    end.

(** ** itertools.cycle *)

(** The iterator first walks its input, saving every item it hands out,
    then walks the saved copy again and again. *)
Inductive cycle_iter (A : Type) :=
| FirstPass (pending saved : list A)
| Replay (pending saved : list A).
Arguments FirstPass {A} pending saved.
Arguments Replay {A} pending saved.

Definition cycle {A} (iterable : list A) : cycle_iter A :=
  FirstPass iterable [].

Definition replay_next {A} (saved : list A) : option (A * cycle_iter A) :=
  match saved with
  | [] => None
  | x :: pending => Some (x, Replay pending saved)
  end.

(** [next(it)]; [None] is [StopIteration]. *)
Definition cycle_next {A} (it : cycle_iter A) : option (A * cycle_iter A) :=
  match it with
  | FirstPass (x :: pending) saved => Some (x, FirstPass pending (saved ++ [x]))
  | FirstPass [] saved => replay_next saved
  | Replay (x :: pending) saved => Some (x, Replay pending saved)
  | Replay [] saved => replay_next saved
  end.

(** The first [k] items the iterator hands out. *)
Fixpoint cycle_take {A} (k : nat) (it : cycle_iter A) : list A :=
  match k with
  | O => []
  | S k' =>
      match cycle_next it with
      | None => []
      | Some (x, it') => x :: cycle_take k' it'
      end
  end.

(** ** DifferentialRenderer *)

Record DifferentialRenderer := mkRenderer {
  frame_delay : Q;
  frames : list Frame
}.

Definition DifferentialRenderer_init (frame_delay : Q) : DifferentialRenderer :=
  mkRenderer frame_delay [].

Definition with_frames (self : DifferentialRenderer) (fs : list Frame)
  : DifferentialRenderer :=
  mkRenderer (frame_delay self) fs.

(** The [for next_frame in itertools.cycle(...)] loop; [fuel] bounds the
    number of iterations the model follows. *)
Fixpoint animation_loop (fuel : nat) (delay : Q) (it : cycle_iter Frame)
    (current_frame : Frame) : M unit :=
  match fuel with
  | O => fun w => (Running, w)
  | S fuel' =>
      match cycle_next it with
      | None => ret tt
      | Some (next_frame, it') =>
          call (Sleep delay) ;;
          calls (render_frame_difference current_frame next_frame) ;;
          animation_loop fuel' delay it' next_frame
      end
  end.

Definition stopped_notice : string := "Animation stopped." ++ String Py.LF "".

Definition setup (frame0 : Frame) : M unit :=
  call HideCursor ;;
  calls enable_synchronized_mode ;;
  calls (render_frame frame0).

Definition teardown : M unit :=
  call ShowCursor ;;
  call ClearScreen ;;
  calls disable_synchronized_mode ;;
  call (Text stopped_notice) ;;
  call Flush.

Definition run_animation (self : DifferentialRenderer) (fuel : nat) : M unit :=
  match frames self with
  | [] => ret tt
  | frame0 :: rest =>
      try_finally
        (try_except
           (setup frame0 ;;
            animation_loop fuel (frame_delay self) (cycle (rest ++ [frame0]))
                           frame0)
           is_KeyboardInterrupt
           (fun _ => ret tt))
        teardown
  end.

(** ** int() and repr() of a string *)

Module PyInt.

(** White space that [int] strips: the ASCII set of the C parser and,
    turned into spaces beforehand, NEL 0x85 and NBSP 0xa0. *)
Definition is_space (c : ascii) : bool :=
  Py.between 9 13 c || (Py.code c =? 32)%nat
  || (Py.code c =? 133)%nat || (Py.code c =? 160)%nat.

Definition is_digit (c : ascii) : bool := Py.between 48 57 c.

Fixpoint lstrip (s : string) : string :=
  match s with
  | EmptyString => EmptyString
  | String c rest => if is_space c then lstrip rest else s
  end.

Definition strip (s : string) : string :=
  Py.rev_string "" (lstrip (Py.rev_string "" (lstrip s))).

(** Decimal digits, single underscores allowed between two digits. *)
Fixpoint digits (acc : Z) (after_digit : bool) (s : string) : option Z :=
  match s with
  | EmptyString => if after_digit then Some acc else None
  | String c rest =>
      if is_digit c then
        digits (10 * acc + Z.of_nat (Py.code c - 48)) true rest
      else if Ascii.eqb c "_"%char then
        if after_digit then digits acc false rest else None
      else None
  end.

(** [int(s)]; [None] when it raises [ValueError]. *)
Definition parse (s : string) : option Z :=
  match strip s with
  | String "+"%char rest => digits 0 false rest
  | String "-"%char rest => option_map Z.opp (digits 0 false rest)
  | t => digits 0 false t
  end.

Definition hex_digit (n : nat) : ascii :=
  match String.get n "0123456789abcdef" with
  | Some c => c
  | None => "0"%char
  end.

Definition squote : ascii := "039"%char.
Definition dquote : ascii := "034"%char.
Definition backslash : ascii := "092"%char.

Fixpoint contains (c : ascii) (s : string) : bool :=
  match s with
  | EmptyString => false
  | String d rest => Ascii.eqb c d || contains c rest
  end.

Definition repr_char (quote c : ascii) : string :=
  let n := Py.code c in
  if Ascii.eqb c quote || Ascii.eqb c backslash then String backslash (String c "")
  else if (n =? 9)%nat then String backslash "t"
  else if (n =? 10)%nat then String backslash "n"
  else if (n =? 13)%nat then String backslash "r"
  else if (n <? 32)%nat || (127 <=? n)%nat && (n <=? 160)%nat || (n =? 173)%nat
  then String backslash
         (String "x" (String (hex_digit (n / 16)) (String (hex_digit (n mod 16)) "")))
  else String c "".

Fixpoint repr_body (quote : ascii) (s : string) : string :=
  match s with
  | EmptyString => EmptyString
  | String c rest => repr_char quote c ++ repr_body quote rest
  end.

(** [repr(s)] *)
Definition repr (s : string) : string :=
  let quote := if contains squote s && negb (contains dquote s)
               then dquote else squote in
  String quote (repr_body quote s ++ String quote "").

(** The message of the [ValueError] of [int(s)] (format [%.200R]). *)
Definition invalid_literal (s : string) : string :=
  "invalid literal for int() with base 10: "
  ++ String.substring 0 200 (repr s).

Definition int (s : string) : result Z :=
  match parse s with
  | Some n => Ok n
  | None => Err (ValueError (invalid_literal s))
  end.

End PyInt.

(** ** Loading frames *)

(** Answer of a file-system call: a value, or the message of the error it
    raises. *)
Inductive io (A : Type) :=
| Success (a : A)
| Failure (msg : string).
Arguments Success {A} a.
Arguments Failure {A} msg.

(** The part of the operating system [load_frames] talks to:
    [os.getcwd()], [os.listdir(path)] and [open(path).read()]. *)
Record filesystem := mkFilesystem {
  getcwd : string;
  listdir : string -> io (list string);
  read_text : string -> io string
}.

(** [os.path.join(a, b)] on POSIX. *)
Definition path_join (a b : string) : string :=
  if Py.startswith b "/" then b
  else if String.eqb a "" || Py.endswith a "/" then a ++ b
  else a ++ "/" ++ b.

Definition is_frame_file (f : string) : bool :=
  Py.startswith f "frame_cleaned_" && Py.endswith f ".txt".

(** [int(f_name.split('_')[-1][:-4])] *)
Definition frame_index (f_name : string) : result Z :=
  PyInt.int (Py.drop_last 4 (List.last (Py.split "_"%char f_name) "")).

(** [sorted(xs, key=...)]: every key is computed first, in list order;
    the sort is stable. *)
Fixpoint with_keys (xs : list string) : result (list (Z * string)) :=
  match xs with
  | [] => Ok []
  | x :: xs' =>
      match frame_index x with
      | Err e => Err e
      | Ok k =>
          match with_keys xs' with
          | Err e => Err e
          | Ok ks => Ok ((k, x) :: ks)
          end
      end
  end.

Fixpoint insert_keyed (x : Z * string) (l : list (Z * string))
  : list (Z * string) :=
  match l with
  | [] => [x]
  | y :: l' => if fst x <=? fst y then x :: l else y :: insert_keyed x l'
  end.

Definition sort_keyed (l : list (Z * string)) : list (Z * string) :=
  fold_right insert_keyed [] l.

Definition key_le (a b : Z * string) : Prop := fst a <= fst b.

Definition sorted_by_index (xs : list string) : result (list string) :=
  match with_keys xs with
  | Err e => Err e
  | Ok ks => Ok (map snd (sort_keyed ks))
  end.

(** The [for frame_path in frame_files] loop and the final [return]. *)
Fixpoint read_frames (fs : filesystem) (folder_path : string)
    (frame_files : list string) (self : DifferentialRenderer)
  : result Z * DifferentialRenderer :=
  match frame_files with
  | [] => (Ok (Z.of_nat (List.length (frames self))), self)
  | frame_path :: more =>
      match read_text fs (path_join folder_path frame_path) with
      | Failure msg => (Err (FileError msg), self)
      | Success content =>
          read_frames fs folder_path more
            (with_frames self (frames self ++ [Frame_init frame_path content]))
      end
  end.

Definition no_frame_files : exn := ValueError "No frame files found".

Definition load_frames (fs : filesystem) (self : DifferentialRenderer)
    (folder_path : string) : result Z * DifferentialRenderer :=
  match listdir fs (getcwd fs ++ "/" ++ folder_path) with
  | Failure msg => (Err (FileError msg), self)
  | Success entries =>
      match sorted_by_index (filter is_frame_file entries) with
      | Err e => (Err e, self)
      | Ok [] => (Err no_frame_files, self)
      | Ok frame_files => read_frames fs folder_path frame_files self
      end
  end.

(** ** main *)

Definition main (fs : filesystem) (fuel : nat) : M unit :=
  let renderer := DifferentialRenderer_init (1 # 50) in
  let folder_path := "ghostty-animation-frames/" in
  try_except
    (match load_frames fs renderer folder_path with
     | (Err e, _) => raise e
     | (Ok frame_count, renderer') =>
         call (Print ("Loaded " ++ Py.str_of_int frame_count
                      ++ " frames. Starting animation...")) ;;
         call (Sleep 1) ;;
         run_animation renderer' fuel
     end)
    is_Exception
    (fun e => call (Print ("Error: " ++ exn_str e))).

(** ** The calls of an undisturbed run, as lists *)

Definition setup_ops (frame0 : Frame) : list op :=
  HideCursor :: enable_synchronized_mode ++ render_frame frame0.

Definition teardown_ops : list op :=
  [ShowCursor; ClearScreen] ++ disable_synchronized_mode
  ++ [Text stopped_notice; Flush].

(** The calls of the loop as it visits [visits] one after the other,
    starting with [current] on the screen. *)
Fixpoint loop_ops (delay : Q) (current : Frame) (visits : list Frame)
  : list op :=
  match visits with
  | [] => []
  | next_frame :: more =>
      Sleep delay :: render_frame_difference current next_frame
      ++ loop_ops delay next_frame more
  end.

(** The iterator can still hand out an item. *)
Definition alive {A} (it : cycle_iter A) : Prop :=
  match it with
  | FirstPass pending saved => pending <> [] \/ saved <> []
  | Replay _ saved => saved <> []
  end.

(** The iterator runs over [xs] and has handed out [c] items of its
    current pass. *)
Definition cycling {A} (xs : list A) (it : cycle_iter A) (c : nat) : Prop :=
  match it with
  | FirstPass pending saved =>
      (saved ++ pending)%list = xs /\ List.length saved = c
  | Replay pending saved =>
      saved = xs /\ exists q, (q ++ pending)%list = xs /\ List.length q = c
  end.

(** ** Reading the loader's inputs *)

(** The index of a frame file whose name carries one. *)
Definition index_of (f_name : string) : Z :=
  match frame_index f_name with
  | Ok k => k
  | Err _ => 0
  end.

Definition has_index (f_name : string) : Prop :=
  exists k, frame_index f_name = Ok k.

(** What [open(...).read()] gives for a frame file that can be read. *)
Definition content_of (fs : filesystem) (folder_path f_name : string) : string :=
  match read_text fs (path_join folder_path f_name) with
  | Success content => content
  | Failure _ => ""
  end.

Definition readable (fs : filesystem) (folder_path f_name : string) : Prop :=
  exists content,
    read_text fs (path_join folder_path f_name) = Success content.

(** A directory holding exactly [files], as (name, content) pairs, at
    [cwd/folder_path]; every other path is missing. *)
Definition directory_of (cwd folder_path : string)
    (files : list (string * string)) : filesystem :=
  mkFilesystem cwd
    (fun path =>
       if String.eqb path (cwd ++ "/" ++ folder_path)
       then Success (map fst files)
       else Failure "[Errno 2] No such file or directory")
    (fun path =>
       match find (fun f => String.eqb path (path_join folder_path (fst f))) files with
       | Some f => Success (snd f)
       | None => Failure "[Errno 2] No such file or directory"
       end).

(** Sample directories. *)
Definition animation_folder : string := "ghostty-animation-frames/".

Definition two_frames_dir : filesystem :=
  directory_of "/home/u" animation_folder
    [("frame_cleaned_10.txt", "j"); ("notes.md", "n"); ("frame_cleaned_2.txt", "b")].

Definition no_frames_dir : filesystem :=
  directory_of "/home/u" animation_folder [("notes.md", "n")].

Definition unnumbered_dir : filesystem :=
  directory_of "/home/u" animation_folder [("frame_cleaned_x.txt", "art")].

(** ** Rows of the screen a list of calls touches *)

(** The screen row the cursor is on once [o] is done: a cursor move names
    it, clearing the screen homes the cursor, other calls leave it. *)
Definition cursor_after (cursor : option Z) (o : op) : option Z :=
  match o with
  | MoveCursor _ y => Some y
  | ClearScreen => Some 0
  | _ => cursor
  end.

Definition on_row (y : Z) (cursor : option Z) : bool :=
  match cursor with
  | Some y' => y' =? y
  | None => false
  end.

(** Number of calls of kind [P] that act on row [y]. *)
Fixpoint count_on_row (P : op -> bool) (y : Z) (cursor : option Z)
    (os : list op) : nat :=
  match os with
  | [] => O
  | o :: os' =>
      let cursor' := cursor_after cursor o in
      ((if P o && on_row y cursor' then 1 else 0)
       + count_on_row P y cursor' os')%nat
  end.

Definition is_move (o : op) : bool :=
  match o with MoveCursor _ _ => true | _ => false end.
Definition is_erase (o : op) : bool :=
  match o with EraseLine => true | _ => false end.
Definition is_text (o : op) : bool :=
  match o with Text _ => true | _ => false end.
Definition is_flush (o : op) : bool :=
  match o with Flush => true | _ => false end.

Definition moves_to (y : Z) (os : list op) : nat := count_on_row is_move y None os.
Definition erases_of (y : Z) (os : list op) : nat := count_on_row is_erase y None os.
Definition writes_to (y : Z) (os : list op) : nat := count_on_row is_text y None os.

Definition keeps_cursor (o : op) : bool :=
  match o with MoveCursor _ _ | ClearScreen => false | _ => true end.

Definition in_rows (a b y : Z) : bool := (a <=? y) && (y <? b).

(** A block of calls for one row: nothing, or a move to that row followed
    by calls that leave the cursor on it. *)
Definition row_block (blk : Z -> list op) : Prop :=
  forall y, blk y = []
            \/ exists x t, blk y = MoveCursor x y :: t
                           /\ forallb keeps_cursor t = true.

Fixpoint sum_at (y : Z) (w : Z -> nat) (l : list Z) : nat :=
  match l with
  | [] => O
  | y' :: l' => ((if (y' =? y)%Z then w y' else 0) + sum_at y w l')%nat
  end.

(** ** The diff pass as the specification words it *)

(** The diff rule of the specification, as a yes/no answer. *)
Definition row_changed (old_row new_row : option string) : bool :=
  match old_row, new_row with
  | None, None => false
  | Some o, Some n => negb (String.eqb o n)
  | _, _ => true
  end.

(** [render_diff] of the specification over the rows of two frames: rows
    0 .. max - 1, a move, an erase and the new row (when there is one) on
    each changed row; then an erase of every row from the new height up to
    the old one; then the flush. *)
Definition render_diff_spec (current next : list string) : list op :=
  let h := List.length current in
  let h' := List.length next in
  flat_map
    (fun y =>
       if row_changed (nth_error current y) (nth_error next y) then
         match nth_error next y with
         | Some row => [MoveCursor 0 (Z.of_nat y); EraseLine; Text row]
         | None => [MoveCursor 0 (Z.of_nat y); EraseLine]
         end
       else [])
    (seq 0 (Nat.max h h'))
  ++ (if (h' <? h)%nat
      then flat_map (fun y => [MoveCursor 0 (Z.of_nat y); EraseLine])
                    (seq h' (h - h'))
      else [])
  ++ [Flush].

(** ** What the rows of the screen have received *)

(** The cursor row, as far as the calls determine it, and for each row
    the texts written on it since it was last erased. *)
Record screen := mkScreen {
  cursor_row : option Z;
  row_texts : Z -> list string
}.

Definition set_row (rows : Z -> list string) (y : Z) (ts : list string)
  : Z -> list string :=
  fun y' => if y' =? y then ts else rows y'.

Definition draw (s : screen) (o : op) : screen :=
  match o with
  | ClearScreen => mkScreen (Some 0) (fun _ => [])
  | MoveCursor _ y => mkScreen (Some y) (row_texts s)
  | EraseLine =>
      match cursor_row s with
      | Some y => mkScreen (Some y) (set_row (row_texts s) y [])
      | None => s
      end
  | Text t =>
      match cursor_row s with
      | Some y => mkScreen (Some y) (set_row (row_texts s) y (row_texts s y ++ [t]))
      | None => s
      end
  | _ => s
  end.

Definition draw_all (s : screen) (os : list op) : screen := fold_left draw os s.

(** What row [y] of the screen holds when the screen shows frame [f]. *)
Definition row_of (f : Frame) (y : Z) : list string :=
  match get_line f y with
  | Some row => [row]
  | None => []
  end.

Definition shows (s : screen) (f : Frame) : Prop :=
  forall y, row_texts s y = row_of f y.

(** The calls for one row: none, or a move to the row, an erase and the
    texts to put on it. *)
Definition block_of (upd : Z -> option (list string)) (y : Z) : list op :=
  match upd y with
  | None => []
  | Some ts => MoveCursor 0 y :: EraseLine :: map Text ts
  end.

(** What the first loop of the diff pass puts on row [y]. *)
Definition diff_update (current next_frame : Frame) (y : Z)
  : option (list string) :=
  if truthy (find_line_differences (get_line current y) (get_line next_frame y))
  then Some (row_of next_frame y)
  else None.

(** Frames as the loader builds them, from (name, text) pairs. *)
Definition frames_of (srcs : list (string * string)) : list Frame :=
  map (fun p => Frame_init (fst p) (snd p)) srcs.

(** Calls that switch a mode of the terminal. *)
Definition is_mode (o : op) : bool :=
  match o with
  | HideCursor | ShowCursor | EnableSync | DisableSync => true
  | _ => false
  end.

(** The line [main] prints once the frames are loaded. *)
Definition loaded_notice (frame_count : Z) : string :=
  "Loaded " ++ Py.str_of_int frame_count ++ " frames. Starting animation...".

(** A directory whose second frame file cannot be read. *)
Definition broken_dir : filesystem :=
  mkFilesystem "/home/u"
    (fun _ => Success ["frame_cleaned_2.txt"; "frame_cleaned_1.txt"])
    (fun path =>
       if String.eqb path (path_join animation_folder "frame_cleaned_1.txt")
       then Success "a"
       else Failure "[Errno 13] Permission denied").

(** The directory of [two_frames_dir], listed in another order. *)
Definition two_frames_dir_relisted : filesystem :=
  mkFilesystem (getcwd two_frames_dir)
    (fun _ => Success ["frame_cleaned_2.txt"; "frame_cleaned_10.txt"; "notes.md"])
    (read_text two_frames_dir).

Definition index_lt (a b : string) : Prop := index_of a < index_of b.

Definition same_index (k : Z) (f_name : string) : bool := index_of f_name =? k.

(** ** Texts *)

(** Every character of [s] satisfies [P]. *)
Fixpoint all_chars (P : ascii -> bool) (s : string) : bool :=
  match s with
  | EmptyString => true
  | String c rest => P c && all_chars P rest
  end.

Definition unbroken (row : string) : bool :=
  all_chars (fun c => negb (Py.is_linebreak c)) row.

Definition escape_free (text : string) : bool :=
  all_chars (fun c => negb (Ascii.eqb c Py.ESC)) text.

(** The rows, each followed by a newline. *)
Fixpoint unlines (rows : list string) : string :=
  match rows with
  | [] => ""
  | row :: more => row ++ String Py.LF (unlines more)
  end.




(** ** The diff rule and the frame model *)

(** C2. The diff rule of [find_line_differences]: no change when both rows
    are absent or both are present and equal as strings; in every other
    case exactly one change, whose content is the new row when there is
    one and the empty string when the new row is absent. *)
Theorem find_line_differences_rule (old_line new_line : option string) :
  (old_line = new_line -> find_line_differences old_line new_line = [])
  /\ (old_line <> new_line ->
      exists content,
        find_line_differences old_line new_line = [(0, content)]
        /\ (forall n, new_line = Some n -> content = n)
        /\ (new_line = None -> content = "")).
Proof.
  split.
  - intros <-. destruct old_line as [o|]; simpl; trivial.
    now rewrite String.eqb_refl.
  - intros Hne. destruct old_line as [o|], new_line as [n|]; simpl.
    + destruct (String.eqb_spec o n) as [->|Hon]; [congruence|].
      exists n. simpl. repeat split; [congruence | discriminate].
    + exists "". repeat split; discriminate.
    + exists n. repeat split; [congruence | discriminate].
    + congruence.
Qed.

Lemma find_line_differences_rule_witness :
  find_line_differences (Some "ab") None = [(0, "")]
  /\ find_line_differences (Some "ab") (Some "ac") = [(0, "ac")].
Proof.
  split.
  - destruct (find_line_differences_rule (Some "ab") None) as [_ H].
    destruct H as (c & -> & _ & Hc); [discriminate|].
    now rewrite Hc.
  - destruct (find_line_differences_rule (Some "ab") (Some "ac")) as [_ H].
    destruct H as (c & -> & Hc & _); [discriminate|].
    now rewrite (Hc "ac" eq_refl).
Defined.

Lemma max_of_ge (xs : list Z) : forall x, x <= max_of x xs.
Proof.
  unfold max_of. induction xs as [|a xs IH]; intros x; simpl; [lia|].
  specialize (IH (Z.max x a)). lia.
Qed.

Lemma get_line_inside (nm content : string) (i : nat) :
  get_line (Frame_init nm content) (Z.of_nat i)
  = nth_error (Py.splitlines content) i.
Proof.
  unfold get_line. simpl.
  destruct (Z.ltb_spec (Z.of_nat i) (Z.of_nat (List.length (Py.splitlines content))))
    as [Hlt|Hge].
  - replace (0 <=? Z.of_nat i) with true by (symmetry; apply Z.leb_le; lia).
    simpl. now rewrite Nat2Z.id.
  - rewrite andb_false_r. symmetry. apply nth_error_None. lia.
Qed.

Lemma get_line_outside (f : Frame) (y : Z) :
  y < 0 \/ height f <= y -> get_line f y = None.
Proof.
  intros H. unfold get_line.
  destruct (Z.leb_spec 0 y); simpl; trivial.
  destruct (Z.ltb_spec y (height f)); simpl; trivial. lia.
Qed.

Lemma get_line_some (nm content : string) (y : Z) :
  0 <= y < height (Frame_init nm content) ->
  exists row, get_line (Frame_init nm content) y = Some row
              /\ nth_error (lines (Frame_init nm content)) (Z.to_nat y) = Some row.
Proof.
  intros Hy. unfold get_line.
  replace (0 <=? y) with true by (symmetry; apply Z.leb_le; lia).
  replace (y <? _) with true by (symmetry; apply Z.ltb_lt; lia).
  simpl andb. cbv iota.
  destruct (nth_error (lines (Frame_init nm content)) (Z.to_nat y)) as [row|] eqn:E.
  - now exists row.
  - apply nth_error_None in E. simpl in *. lia.
Qed.

Lemma splitlines_from_nonempty (s : string) :
  forall acc, acc <> "" -> Py.splitlines_from acc s <> [].
Proof.
  induction s as [|c rest IH]; intros acc Hacc; simpl.
  - destruct acc; [congruence | discriminate].
  - destruct (Py.is_linebreak c); [discriminate|].
    apply IH. destruct acc; discriminate.
Qed.

(** Only the empty text splits into no rows. *)
Lemma splitlines_nil (content : string) :
  Py.splitlines content = [] <-> content = "".
Proof.
  split; [|intros ->; reflexivity].
  destruct content as [|c rest]; trivial.
  unfold Py.splitlines. simpl.
  destruct (Py.is_linebreak c); [discriminate|].
  intros H. exfalso. revert H. now apply splitlines_from_nonempty.
Qed.

(** C6. A frame built from a name and a text has as many rows as the text
    splits into, [height = len(lines)], a non-negative width, height and
    width 0 when there are no rows (which is so for the empty text only),
    and [get_line] gives the row at [y] inside [0, height) and "no row"
    at and above [height] and below 0; "no row" is [None], so a row, the
    empty one included, comes back inside [0, height) only. *)
Theorem Frame_init_model (nm content : string) :
  let f := Frame_init nm content in
  height f = Z.of_nat (List.length (Py.splitlines content))
  /\ height f = Z.of_nat (List.length (lines f))
  /\ 0 <= width f
  /\ (lines f = [] -> height f = 0 /\ width f = 0)
  /\ (lines f = [] <-> content = "")
  /\ (forall y, 0 <= y < height f ->
        exists row, get_line f y = Some row
                    /\ nth_error (lines f) (Z.to_nat y) = Some row)
  /\ (forall y, height f <= y -> get_line f y = None)
  /\ (forall y, y < 0 -> get_line f y = None)
  /\ (forall y row, get_line f y = Some row -> 0 <= y < height f).
Proof.
  intros f. repeat split; trivial.
  - subst f. unfold Frame_init. simpl.
    destruct (Py.splitlines content) as [|l ls]; simpl; [lia|].
    pose proof (max_of_ge (map (fun line => Py.len (strip_ansi line)) ls)
                          (Py.len (strip_ansi l))) as H.
    unfold Py.len in *. lia.
  - subst f. simpl in *. now rewrite H.
  - subst f. simpl in *. now rewrite H.
  - apply splitlines_nil.
  - apply splitlines_nil.
  - intros y Hy. now apply get_line_some.
  - intros y Hy. apply get_line_outside. now right.
  - intros y Hy. apply get_line_outside. now left.
  - unfold get_line in H. destruct (Z.leb_spec 0 y); [trivial|discriminate].
  - unfold get_line in H. destruct (Z.leb_spec 0 y); [|discriminate].
    destruct (Z.ltb_spec y (height f)); [trivial|discriminate].
Qed.

Lemma Frame_init_model_witness :
  let f := Frame_init "f" ("ab" ++ String Py.LF "c") in
  height f = 2 /\ get_line f 1 = Some "c" /\ get_line f 2 = None
  /\ get_line f (-1) = None.
Proof.
  intros f.
  destruct (Frame_init_model "f" ("ab" ++ String Py.LF "c"))
    as (Hh & _ & _ & _ & _ & Hin & Hhi & Hlo & _).
  split; [|split; [|split]].
  - exact Hh.
  - destruct (Hin 1) as (row & Hrow & Hnth); [change (0 <= 1 < 2); lia|].
    fold f in Hrow. rewrite Hrow. simpl in Hnth. congruence.
  - apply Hhi. change (2 <= 2). lia.
  - apply Hlo. lia.
Defined.

Example Frame_init_empty (nm : string) :
  Frame_init nm "" = mkFrame nm [] 0 0.
Proof. reflexivity. Qed.

Example Frame_init_three_rows :
  let f := Frame_init "f" ("ab" ++ String Py.LF "" ++ String Py.LF "c") in
  lines f = ["ab"; ""; "c"] /\ height f = 3 /\ width f = 2
  /\ get_line f 1 = Some "" /\ get_line f 3 = None /\ get_line f (-1) = None.
Proof. repeat split. Qed.

(** ** The diff pass *)

Lemma seq_offset (n : nat) :
  forall s a, map (fun i => a + i)%nat (seq s n) = seq (a + s) n.
Proof.
  induction n as [|n IH]; intros s a; simpl; trivial.
  now rewrite IH, Nat.add_succ_r.
Qed.

Lemma range_of_nat (a b : nat) :
  range (Z.of_nat a) (Z.of_nat b) = map Z.of_nat (seq a (b - a)).
Proof.
  unfold range.
  replace (Z.to_nat (Z.of_nat b - Z.of_nat a)) with (b - a)%nat by lia.
  rewrite <- (Nat.add_0_r a) at 2.
  rewrite <- seq_offset, map_map.
  apply map_ext. intros i. lia.
Qed.

Lemma flat_map_map {A B C} (f : B -> list C) (g : A -> B) (l : list A) :
  flat_map f (map g l) = flat_map (fun x => f (g x)) l.
Proof.
  induction l as [|x l IH]; simpl; trivial. now rewrite IH.
Qed.

Lemma row_changed_truthy (old_row new_row : option string) :
  truthy (find_line_differences old_row new_row) = row_changed old_row new_row.
Proof.
  destruct old_row as [o|], new_row as [n|]; simpl; trivial.
  now destruct (String.eqb o n).
Qed.

Lemma render_row_difference_spec (n1 c1 n2 c2 : string) (y : nat) :
  render_row_difference (Frame_init n1 c1) (Frame_init n2 c2) (Z.of_nat y)
  = if row_changed (nth_error (Py.splitlines c1) y)
                   (nth_error (Py.splitlines c2) y)
    then match nth_error (Py.splitlines c2) y with
         | Some row => [MoveCursor 0 (Z.of_nat y); EraseLine; Text row]
         | None => [MoveCursor 0 (Z.of_nat y); EraseLine]
         end
    else [].
Proof.
  unfold render_row_difference.
  rewrite !get_line_inside, row_changed_truthy.
  destruct (row_changed _ _); trivial.
  now destruct (nth_error (Py.splitlines c2) y).
Qed.

Lemma count_flush_app (a b : list op) :
  List.length (filter is_flush (a ++ b))
  = (List.length (filter is_flush a) + List.length (filter is_flush b))%nat.
Proof. now rewrite filter_app, length_app. Qed.

Lemma no_flush_in_rows {A} (f : A -> list op) (l : list A) :
  (forall x, filter is_flush (f x) = []) ->
  filter is_flush (flat_map f l) = [].
Proof.
  intros Hf. induction l as [|x l IH]; simpl; trivial.
  now rewrite filter_app, Hf, IH.
Qed.

(** C1. [render_frame_difference] is the diff pass of the specification:
    rows 0 .. max(heights) - 1 in order, on each changed row a cursor move
    to (0, y), an erase and next's row when next has one; then, when next
    is the shorter frame, an erase of every row from next's height to
    current's height - 1; and one flush, which is the last call. *)
Theorem render_frame_difference_spec (n1 c1 n2 c2 : string) :
  let current := Frame_init n1 c1 in
  let next_frame := Frame_init n2 c2 in
  render_frame_difference current next_frame
  = render_diff_spec (lines current) (lines next_frame)
  /\ List.length (filter is_flush (render_frame_difference current next_frame)) = 1%nat
  /\ exists before : list op,
       render_frame_difference current next_frame = (before ++ [Flush])%list
       /\ filter is_flush before = [].
Proof.
  intros current next_frame.
  assert (Hloop :
    flat_map (render_row_difference current next_frame)
             (range 0 (Z.max (height current) (height next_frame)))
    = flat_map
        (fun y =>
           if row_changed (nth_error (lines current) y) (nth_error (lines next_frame) y)
           then match nth_error (lines next_frame) y with
                | Some row => [MoveCursor 0 (Z.of_nat y); EraseLine; Text row]
                | None => [MoveCursor 0 (Z.of_nat y); EraseLine]
                end
           else [])
        (seq 0 (Nat.max (List.length (lines current))
                        (List.length (lines next_frame))))).
  { subst current next_frame. simpl height. simpl lines.
    rewrite <- Nat2Z.inj_max.
    change 0 with (Z.of_nat 0). rewrite range_of_nat, Nat.sub_0_r, flat_map_map.
    apply flat_map_ext. intros y. apply render_row_difference_spec. }
  assert (Htail :
    (if height next_frame <? height current
     then flat_map erase_row (range (height next_frame) (height current))
     else [])
    = (if (List.length (lines next_frame) <? List.length (lines current))%nat
       then flat_map (fun y => [MoveCursor 0 (Z.of_nat y); EraseLine])
              (seq (List.length (lines next_frame))
                   (List.length (lines current) - List.length (lines next_frame)))
       else [])).
  { subst current next_frame. simpl height. simpl lines.
    destruct (Nat.ltb_spec (List.length (Py.splitlines c2))
                           (List.length (Py.splitlines c1))) as [Hlt|Hge].
    - replace (_ <? _) with true by (symmetry; apply Z.ltb_lt; lia).
      now rewrite range_of_nat, flat_map_map.
    - replace (_ <? _) with false by (symmetry; apply Z.ltb_ge; lia).
      reflexivity. }
  assert (Heq : render_frame_difference current next_frame
                = render_diff_spec (lines current) (lines next_frame)).
  { unfold render_frame_difference, render_diff_spec.
    cbv zeta. now rewrite Hloop, Htail. }
  assert (Hquiet :
    filter is_flush
      (flat_map (render_row_difference current next_frame)
                (range 0 (Z.max (height current) (height next_frame)))
       ++ (if height next_frame <? height current
           then flat_map erase_row (range (height next_frame) (height current))
           else [])) = []).
  { rewrite filter_app, no_flush_in_rows.
    - destruct (height next_frame <? height current); trivial.
      now apply no_flush_in_rows.
    - intros y. unfold render_row_difference.
      destruct (truthy _); trivial.
      now destruct (get_line next_frame y). }
  split; [exact Heq|]. split.
  - unfold render_frame_difference. cbv zeta.
    rewrite app_assoc, count_flush_app, Hquiet. reflexivity.
  - eexists. split; [|exact Hquiet].
    unfold render_frame_difference. cbv zeta. now rewrite app_assoc.
Qed.

Example render_frame_difference_shrink :
  render_frame_difference
    (Frame_init "a" ("x" ++ String Py.LF "y" ++ String Py.LF "z"))
    (Frame_init "b" ("x" ++ String Py.LF "q"))
  = [MoveCursor 0 1; EraseLine; Text "q";
     MoveCursor 0 2; EraseLine;
     MoveCursor 0 2; EraseLine;
     Flush].
Proof. reflexivity. Qed.

Example render_frame_difference_grow :
  render_frame_difference
    (Frame_init "a" ("x" ++ String Py.LF "y"))
    (Frame_init "b" ("x" ++ String Py.LF "y" ++ String Py.LF "z"
                     ++ String Py.LF "w"))
  = [MoveCursor 0 2; EraseLine; Text "z";
     MoveCursor 0 3; EraseLine; Text "w";
     Flush].
Proof. reflexivity. Qed.

(** ** Rows touched by the diff pass *)

Lemma count_on_row_app (P : op -> bool) (y : Z) (a b : list op) :
  forall cursor,
    count_on_row P y cursor (a ++ b)
    = (count_on_row P y cursor a
       + count_on_row P y (fold_left cursor_after a cursor) b)%nat.
Proof.
  induction a as [|o a IH]; intros cursor; simpl; trivial.
  rewrite IH. lia.
Qed.

Lemma count_on_other_row (P : op -> bool) (y y' : Z) (t : list op) :
  y' <> y -> forallb keeps_cursor t = true ->
  count_on_row P y (Some y') t = 0%nat.
Proof.
  intros Hne. induction t as [|o t IH]; simpl; trivial.
  intros H. apply andb_true_iff in H as [Ho Ht].
  replace (cursor_after (Some y') o) with (Some y')
    by (destruct o; simpl in *; congruence).
  simpl. replace (y' =? y) with false by (symmetry; now apply Z.eqb_neq).
  rewrite andb_false_r, IH; trivial.
Qed.

Lemma count_row_blocks (P : op -> bool) (y : Z) (blk : Z -> list op) :
  row_block blk ->
  forall l cursor,
    count_on_row P y cursor (flat_map blk l)
    = sum_at y (fun y' => count_on_row P y' None (blk y')) l.
Proof.
  intros Hblk. induction l as [|y' l IH]; intros cursor; simpl; trivial.
  rewrite count_on_row_app, IH. f_equal.
  destruct (Hblk y') as [->|(x & t & -> & Ht)].
  - now destruct (y' =? y).
  - simpl. destruct (Z.eqb_spec y' y) as [->|Hne].
    + now rewrite Z.eqb_refl.
    + rewrite andb_false_r. simpl. now apply count_on_other_row.
Qed.

Lemma sum_at_seq (y a : Z) (w : Z -> nat) (n : nat) :
  forall s,
    sum_at y w (map (fun i => a + Z.of_nat i) (seq s n))
    = if in_rows (a + Z.of_nat s) (a + Z.of_nat s + Z.of_nat n) y
      then w y else 0%nat.
Proof.
  unfold in_rows.
  induction n as [|n IH]; intros s; cbn [seq map sum_at].
  - destruct (Z.leb_spec (a + Z.of_nat s) y);
      destruct (Z.ltb_spec y (a + Z.of_nat s + Z.of_nat 0));
      cbn [andb]; trivial; lia.
  - rewrite IH.
    destruct (Z.eqb_spec (a + Z.of_nat s) y) as [Heq|Hne];
      destruct (Z.leb_spec (a + Z.of_nat (S s)) y);
      destruct (Z.leb_spec (a + Z.of_nat s) y);
      destruct (Z.ltb_spec y (a + Z.of_nat (S s) + Z.of_nat n));
      destruct (Z.ltb_spec y (a + Z.of_nat s + Z.of_nat (S n)));
      cbn [andb]; subst; lia.
Qed.

Lemma sum_at_range (y a b : Z) (w : Z -> nat) :
  sum_at y w (range a b) = if in_rows a b y then w y else 0%nat.
Proof.
  unfold range. rewrite sum_at_seq. unfold in_rows. simpl Z.of_nat.
  rewrite Z.add_0_r.
  destruct (Z.leb_spec a y); simpl; trivial.
  destruct (Z.ltb_spec y (a + Z.of_nat (Z.to_nat (b - a))));
  destruct (Z.ltb_spec y b); trivial; lia.
Qed.

Lemma render_row_difference_block (current next_frame : Frame) :
  row_block (render_row_difference current next_frame).
Proof.
  intros y. unfold render_row_difference.
  destruct (truthy _); [right|now left].
  exists 0. eexists. split; [reflexivity|].
  now destruct (get_line next_frame y).
Qed.

Lemma erase_row_block : row_block erase_row.
Proof. intros y. right. exists 0, [EraseLine]. now split. Qed.

(** The calls of one kind that the diff pass spends on row [y]: those of
    the main loop when [y] is one of its rows, and those of the trailing
    pass when [y] is one of its rows. *)
Lemma render_frame_difference_on_row (P : op -> bool) (current next_frame : Frame)
    (y : Z) :
  P Flush = false ->
  count_on_row P y None (render_frame_difference current next_frame)
  = ((if in_rows 0 (Z.max (height current) (height next_frame)) y
      then count_on_row P y None (render_row_difference current next_frame y)
      else 0)
     + (if (height next_frame <? height current)%Z
           && in_rows (height next_frame) (height current) y
        then count_on_row P y None (erase_row y)
        else 0))%nat.
Proof.
  intros HP. unfold render_frame_difference. cbv zeta.
  rewrite count_on_row_app.
  rewrite (count_row_blocks P y _ (render_row_difference_block current next_frame)).
  rewrite sum_at_range. f_equal.
  rewrite count_on_row_app. simpl count_on_row at 2.
  rewrite HP. simpl. rewrite Nat.add_0_r.
  destruct (height next_frame <? height current); simpl; trivial.
  rewrite (count_row_blocks P y _ erase_row_block).
  now rewrite sum_at_range.
Qed.

Lemma render_row_difference_outside (current next_frame : Frame) (y : Z) :
  in_rows 0 (Z.max (height current) (height next_frame)) y = false ->
  render_row_difference current next_frame y = [].
Proof.
  unfold in_rows. intros H. unfold render_row_difference.
  rewrite !get_line_outside; trivial;
    destruct (Z.leb_spec 0 y); simpl in H; try lia;
    apply Z.ltb_ge in H; lia.
Qed.

Lemma render_frame_difference_counts (P : op -> bool) (current next_frame : Frame)
    (y : Z) :
  P Flush = false ->
  count_on_row P y None (render_frame_difference current next_frame)
  = (count_on_row P y None (render_row_difference current next_frame y)
     + (if in_rows (height next_frame) (height current) y
        then count_on_row P y None (erase_row y)
        else 0))%nat.
Proof.
  intros HP. rewrite render_frame_difference_on_row by exact HP. f_equal.
  - destruct (in_rows 0 _ y) eqn:E; trivial.
    now rewrite render_row_difference_outside.
  - unfold in_rows.
    destruct (Z.ltb_spec (height next_frame) (height current)); trivial.
    destruct (Z.leb_spec (height next_frame) y); trivial.
    destruct (Z.ltb_spec y (height current)); trivial. lia.
Qed.

(** C4, as the code has it.  Of the calls of the diff pass, a row whose
    diff reports no change gets none; a changed row that next still has
    gets one cursor move, one erase and one write of next's row; a row of
    current at or past next's height is a changed row and gets two cursor
    moves and two erases, one pair from each loop, and no write. *)
Theorem render_frame_difference_per_row (n1 c1 n2 c2 : string) (y : Z) :
  let current := Frame_init n1 c1 in
  let next_frame := Frame_init n2 c2 in
  let differences :=
    find_line_differences (get_line current y) (get_line next_frame y) in
  let out := render_frame_difference current next_frame in
  (differences = [] ->
     moves_to y out = 0%nat /\ erases_of y out = 0%nat /\ writes_to y out = 0%nat)
  /\ (differences <> [] -> ~ height next_frame <= y < height current ->
     moves_to y out = 1%nat /\ erases_of y out = 1%nat /\ writes_to y out = 1%nat)
  /\ (height next_frame <= y < height current ->
     differences <> []
     /\ moves_to y out = 2%nat /\ erases_of y out = 2%nat /\ writes_to y out = 0%nat).
Proof.
  intros current next_frame differences out.
  unfold moves_to, erases_of, writes_to. subst out.
  rewrite !render_frame_difference_counts by reflexivity.
  assert (Hshrink : height next_frame <= y < height current ->
            in_rows (height next_frame) (height current) y = true
            /\ get_line next_frame y = None
            /\ exists row, get_line current y = Some row).
  { intros Hy. split; [|split].
    - unfold in_rows. apply andb_true_iff. split;
        [apply Z.leb_le | apply Z.ltb_lt]; lia.
    - apply get_line_outside. lia.
    - destruct (get_line_some n1 c1 y) as (row & Hrow & _).
      + change (0 <= y < height current).
        assert (0 <= height next_frame) by (simpl; lia). lia.
      + now exists row. }
  assert (Hkeep : ~ height next_frame <= y < height current ->
            in_rows (height next_frame) (height current) y = false).
  { intros Hy. unfold in_rows.
    destruct (Z.leb_spec (height next_frame) y); trivial.
    destruct (Z.ltb_spec y (height current)); trivial. lia. }
  split; [|split].
  - intros Hd.
    assert (Hout : ~ height next_frame <= y < height current).
    { intros Hy. destruct (Hshrink Hy) as (_ & Hn & row & Hc).
      subst differences. rewrite Hn, Hc in Hd. discriminate. }
    rewrite (Hkeep Hout). unfold render_row_difference.
    fold differences. rewrite Hd. now simpl.
  - intros Hd Hout. rewrite (Hkeep Hout).
    assert (Hnext : exists row, get_line next_frame y = Some row).
    { destruct (Z.lt_ge_cases y 0) as [Hneg|Hpos].
      - exfalso. apply Hd. subst differences.
        rewrite !get_line_outside by lia. reflexivity.
      - destruct (Z.lt_ge_cases y (height next_frame)) as [Hin|Hpast].
        + destruct (get_line_some n2 c2 y) as (row & Hrow & _); [easy|].
          now exists row.
        + exfalso. apply Hd. subst differences.
          rewrite !get_line_outside by lia. reflexivity. }
    destruct Hnext as (row & Hrow).
    unfold render_row_difference. fold differences.
    destruct differences; [congruence|].
    rewrite Hrow. simpl. now rewrite Z.eqb_refl.
  - intros Hy. destruct (Hshrink Hy) as (Hin & Hn & row & Hc).
    rewrite Hin. unfold render_row_difference.
    subst differences. rewrite Hn, Hc. simpl.
    rewrite Z.eqb_refl. repeat split. discriminate.
Qed.

Lemma render_frame_difference_per_row_witness :
  let current := Frame_init "a" ("x" ++ String Py.LF "y" ++ String Py.LF "z") in
  let next_frame := Frame_init "b" ("x" ++ String Py.LF "q") in
  let out := render_frame_difference current next_frame in
  (moves_to 0 out = 0 /\ erases_of 0 out = 0 /\ writes_to 0 out = 0)%nat
  /\ (moves_to 1 out = 1 /\ erases_of 1 out = 1 /\ writes_to 1 out = 1)%nat
  /\ (moves_to 2 out = 2 /\ erases_of 2 out = 2 /\ writes_to 2 out = 0)%nat.
Proof.
  intros current next_frame out.
  split; [|split].
  - apply (render_frame_difference_per_row
             "a" ("x" ++ String Py.LF "y" ++ String Py.LF "z")
             "b" ("x" ++ String Py.LF "q") 0).
    reflexivity.
  - apply (render_frame_difference_per_row
             "a" ("x" ++ String Py.LF "y" ++ String Py.LF "z")
             "b" ("x" ++ String Py.LF "q") 1).
    + discriminate.
    + change (~ 2 <= 1 < 3). lia.
  - apply (render_frame_difference_per_row
             "a" ("x" ++ String Py.LF "y" ++ String Py.LF "z")
             "b" ("x" ++ String Py.LF "q") 2).
    change (2 <= 2 < 3). lia.
Defined.

(** C4 as stated fails when the frame shrinks: the only row of a one-row
    frame, diffed against the empty frame, is a changed row that gets two
    cursor moves and two erases. *)
Lemma render_frame_difference_not_minimal :
  let current := Frame_init "a" "x" in
  let next_frame := Frame_init "b" "" in
  let out := render_frame_difference current next_frame in
  find_line_differences (get_line current 0) (get_line next_frame 0) <> []
  /\ out = [MoveCursor 0 0; EraseLine; MoveCursor 0 0; EraseLine; Flush]
  /\ ~ ((moves_to 0 out <= 1)%nat /\ (erases_of 0 out <= 1)%nat
        /\ (writes_to 0 out <= 1)%nat).
Proof.
  split; [discriminate|]. split; [reflexivity|].
  intros [H _]. vm_compute in H. lia.
Qed.

(** ** A frame against itself *)

Lemma string_app_nil_r (s : string) : s ++ "" = s.
Proof. induction s as [|c s IH]; simpl; congruence. Qed.

Lemma string_app_assoc (a b c : string) : (a ++ b) ++ c = a ++ (b ++ c).
Proof. induction a as [|x a IH]; simpl; congruence. Qed.

Lemma sent_app (a b : list op) : sent (a ++ b) = sent a ++ sent b.
Proof.
  unfold sent. induction a as [|o a IH]; simpl; trivial.
  now rewrite IH, string_app_assoc.
Qed.

Lemma row_changed_same (row : option string) : row_changed row row = false.
Proof. destruct row as [r|]; simpl; trivial. now rewrite String.eqb_refl. Qed.

Lemma flat_map_nil {A B} (f : A -> list B) (l : list A) :
  (forall x, f x = []) -> flat_map f l = [].
Proof.
  intros Hf. induction l as [|x l IH]; simpl; trivial. now rewrite Hf, IH.
Qed.

Lemma render_diff_spec_same (rows : list string) :
  render_diff_spec rows rows = [Flush].
Proof.
  unfold render_diff_spec. cbv zeta.
  rewrite Nat.ltb_irrefl, flat_map_nil; trivial.
  intros y. now rewrite row_changed_same.
Qed.

Lemma render_frame_difference_self (nm content : string) :
  render_frame_difference (Frame_init nm content) (Frame_init nm content)
  = [Flush].
Proof.
  unfold render_frame_difference. cbv zeta.
  rewrite Z.ltb_irrefl, flat_map_nil; trivial.
  intros y. unfold render_row_difference.
  now rewrite row_changed_truthy, row_changed_same.
Qed.

Section Terminal.

(** Any terminal: a screen state and what each call does to it, a flush
    changing nothing of what the earlier calls put on the screen. *)
Variable screen : Type.
Variable show : screen -> op -> screen.
Hypothesis flush_keeps_screen : forall s, show s Flush = s.

(** C5. Diffing a frame against itself makes no row-level call: the
    pass is the flush alone.  A full render followed by that pass sends
    the terminal the characters of the full render and leaves the screen
    as the full render left it. *)
Theorem render_frame_difference_idempotent (nm content : string) (s0 : screen) :
  let f := Frame_init nm content in
  render_frame_difference f f = [Flush]
  /\ filter (fun o => is_move o || is_erase o || is_text o)
            (render_frame_difference f f) = []
  /\ sent (render_frame f ++ render_frame_difference f f)
     = sent (render_frame f)
  /\ fold_left show (render_frame f ++ render_frame_difference f f) s0
     = fold_left show (render_frame f) s0.
Proof.
  intros f. subst f. rewrite render_frame_difference_self.
  split; [reflexivity|]. split; [reflexivity|]. split.
  - rewrite sent_app. change (sent [Flush]) with "". apply string_app_nil_r.
  - rewrite fold_left_app. cbn [fold_left]. apply flush_keeps_screen.
Qed.

End Terminal.

(** The terminal as the characters it has received. *)
Lemma render_frame_difference_idempotent_witness :
  let f := Frame_init "f" ("ab" ++ String Py.LF "c") in
  render_frame_difference f f = [Flush]
  /\ fold_left (fun s o => s ++ written o)
               (render_frame f ++ render_frame_difference f f) ""
     = fold_left (fun s o => s ++ written o) (render_frame f) "".
Proof.
  intros f.
  destruct (render_frame_difference_idempotent
              string (fun s o => s ++ written o)
              (fun s => string_app_nil_r s)
              "f" ("ab" ++ String Py.LF "c") "") as (H1 & _ & _ & H4).
  split; [exact H1 | exact H4].
Defined.

(** ** The playback loop *)

Lemma calls_run (os : list op) :
  forall t sig,
    calls os (mkWorld t sig)
    = match sig with
      | None => (Done tt, mkWorld (t ++ os) None)
      | Some m =>
          if (m <? List.length os)%nat
          then (Raised KeyboardInterrupt, mkWorld (t ++ firstn m os) None)
          else (Done tt, mkWorld (t ++ os) (Some (m - List.length os)%nat))
      end.
Proof.
  induction os as [|o os IH]; intros t sig.
  - simpl. unfold ret. destruct sig as [m|]; rewrite app_nil_r; trivial.
    now rewrite Nat.sub_0_r.
  - cbn [calls]. unfold bind, call. cbn [sigint trace].
    destruct sig as [[|m]|].
    + cbn. now rewrite app_nil_r.
    + rewrite IH. cbn [List.length firstn].
      change (S m <? S (List.length os))%nat with (m <? List.length os)%nat.
      rewrite <- !app_assoc. cbn [app]. reflexivity.
    + rewrite IH. now rewrite <- app_assoc.
Qed.

Lemma call_run (o : op) (w : world) : call o w = calls [o] w.
Proof.
  cbn [calls]. unfold bind, ret.
  destruct (call o w) as [[[]| |] w']; reflexivity.
Qed.

Lemma calls_app (a b : list op) (w : world) :
  calls (a ++ b) w = (calls a ;; calls b) w.
Proof.
  revert w. induction a as [|o a IH]; intros w.
  - reflexivity.
  - cbn [app calls]. unfold bind.
    destruct (call o w) as [[[]| |] w']; trivial.
Qed.

Lemma setup_run (frame0 : Frame) (w : world) :
  setup frame0 w = calls (setup_ops frame0) w.
Proof.
  unfold setup, setup_ops. cbn [calls]. unfold bind.
  destruct (call HideCursor w) as [[[]| |] w']; trivial.
  rewrite calls_app. reflexivity.
Qed.

Lemma teardown_run (w : world) : teardown w = calls teardown_ops w.
Proof.
  destruct w as [t [m|]]; [|reflexivity].
  do 6 (destruct m as [|m]; [reflexivity|]). reflexivity.
Qed.

Lemma cycle_next_alive {A} (it : cycle_iter A) :
  alive it ->
  exists x it', cycle_next it = Some (x, it') /\ alive it'.
Proof.
  destruct it as [[|x p] s|[|x p] s]; simpl.
  - intros [H|H]; [congruence|]. destruct s as [|y s]; [congruence|].
    simpl. eexists _, _. split; [reflexivity|]. simpl. discriminate.
  - intros _. eexists _, _. split; [reflexivity|]. simpl. right.
    destruct s; discriminate.
  - intros H. destruct s as [|y s]; [congruence|].
    simpl. eexists _, _. split; [reflexivity|]. simpl. discriminate.
  - intros H. eexists _, _. split; [reflexivity|]. exact H.
Qed.

Lemma cycle_alive {A} (xs : list A) : xs <> [] -> alive (cycle xs).
Proof. intros H. now left. Qed.

(** With no signal on its way the loop never ends: whatever the budget,
    it is still running, having drawn the frames the iterator gave. *)
Lemma animation_loop_undisturbed (delay : Q) (fuel : nat) :
  forall it current t,
    alive it ->
    animation_loop fuel delay it current (mkWorld t None)
    = (Running, mkWorld (t ++ loop_ops delay current (cycle_take fuel it)) None).
Proof.
  induction fuel as [|fuel IH]; intros it current t Hit.
  - simpl. now rewrite app_nil_r.
  - cbn [animation_loop cycle_take].
    destruct (cycle_next_alive it Hit) as (x & it' & -> & Hit').
    unfold bind. rewrite call_run, !calls_run. cbn [loop_ops].
    rewrite IH by exact Hit'.
    now rewrite <- !app_assoc.
Qed.

(** A signal due within the budget stops the loop with
    [KeyboardInterrupt] after exactly the calls made before it. *)
Lemma animation_loop_interrupted (delay : Q) (fuel : nat) :
  forall it current t m,
    alive it -> (m < fuel)%nat ->
    animation_loop fuel delay it current (mkWorld t (Some m))
    = (Raised KeyboardInterrupt,
       mkWorld (t ++ firstn m (loop_ops delay current (cycle_take fuel it))) None).
Proof.
  induction fuel as [|fuel IH]; intros it current t m Hit Hm; [lia|].
  cbn [animation_loop cycle_take].
  destruct (cycle_next_alive it Hit) as (x & it' & -> & Hit').
  unfold bind. rewrite call_run, calls_run. cbn [loop_ops List.length].
  destruct m as [|m]; [reflexivity|].
  change (S m <? 1)%nat with false. cbv iota.
  rewrite calls_run. cbn [firstn]. rewrite firstn_app.
  destruct (Nat.ltb_spec (S m - 1) (List.length (render_frame_difference current x)))
    as [Hlt|Hge].
  - replace (m - List.length (render_frame_difference current x))%nat with O by lia.
    cbn [firstn]. rewrite app_nil_r, <- app_assoc.
    replace (S m - 1)%nat with m by lia. reflexivity.
  - rewrite IH by (trivial; lia).
    rewrite (@firstn_all2 _ m (render_frame_difference current x)) by lia.
    rewrite <- !app_assoc. cbn [app].
    replace (S m - 1)%nat with m by lia. reflexivity.
Qed.

(** ** The visiting order *)

Lemma replay_next_cycling {A} (xs : list A) (d : A) :
  xs <> [] ->
  exists it', replay_next xs = Some (nth 0 xs d, it') /\ cycling xs it' 1.
Proof.
  destruct xs as [|x p]; [congruence|]. intros _.
  eexists. split; [reflexivity|]. simpl. split; trivial.
  now exists [x].
Qed.

Lemma cycle_next_cycling {A} (xs : list A) (d : A) (it : cycle_iter A) (c : nat) :
  xs <> [] -> cycling xs it c ->
  exists it',
    cycle_next it = Some (nth (c mod List.length xs) xs d, it')
    /\ cycling xs it' (S (c mod List.length xs)).
Proof.
  intros Hxs Hit.
  destruct it as [p s|p s]; simpl in Hit.
  - destruct Hit as [Hsp Hc]. destruct p as [|x p].
    + rewrite app_nil_r in Hsp. subst s c.
      rewrite Nat.Div0.mod_same. simpl.
      now apply replay_next_cycling.
    + assert (Hlt : (c < List.length xs)%nat).
      { subst xs c. rewrite length_app. simpl. lia. }
      rewrite Nat.mod_small by exact Hlt. simpl.
      eexists. split.
      * subst xs c. now rewrite nth_middle.
      * simpl. split.
        -- now rewrite <- app_assoc.
        -- rewrite length_app. simpl. lia.
  - destruct Hit as [Hs (q & Hqp & Hc)]. subst s. destruct p as [|x p].
    + rewrite app_nil_r in Hqp. subst q c.
      rewrite Nat.Div0.mod_same. simpl.
      now apply replay_next_cycling.
    + assert (Hlt : (c < List.length xs)%nat).
      { subst xs c. rewrite length_app. simpl. lia. }
      rewrite Nat.mod_small by exact Hlt. simpl.
      eexists. split.
      * rewrite <- Hqp at 2. subst c. now rewrite nth_middle.
      * simpl. split; trivial. exists (q ++ [x])%list. split.
        -- now rewrite <- app_assoc.
        -- rewrite length_app. simpl. lia.
Qed.

Lemma cycle_take_cycling {A} (xs : list A) (d : A) (k : nat) :
  xs <> [] ->
  forall it c,
    cycling xs it c ->
    cycle_take k it
    = map (fun i => nth ((c + i) mod List.length xs) xs d) (seq 0 k).
Proof.
  intros Hxs. induction k as [|k IH]; intros it c Hit; trivial.
  destruct (cycle_next_cycling xs d it c Hxs Hit) as (it' & Hnext & Hit').
  cbn [cycle_take seq map]. rewrite Hnext, Nat.add_0_r. f_equal.
  rewrite (IH it' _ Hit'), <- seq_shift, map_map.
  apply map_ext. intros i. f_equal.
  replace (S (c mod List.length xs) + i)%nat
    with (c mod List.length xs + S i)%nat by lia.
  now rewrite Nat.Div0.add_mod_idemp_l.
Qed.

(** Item [i mod n] of the rotated list is item [(i + 1) mod n] of the
    list itself. *)
Lemma nth_rotated {A} (x : A) (rest : list A) (i : nat) :
  nth (i mod S (List.length rest)) (rest ++ [x]) x
  = nth ((i + 1) mod S (List.length rest)) (x :: rest) x.
Proof.
  rewrite <- (Nat.Div0.add_mod_idemp_l i 1).
  pose proof (Nat.mod_upper_bound i (S (List.length rest)) ltac:(lia)) as Hj.
  set (j := (i mod S (List.length rest))%nat) in *.
  destruct (Nat.eq_dec j (List.length rest)) as [->|Hne].
  - rewrite nth_middle.
    replace (List.length rest + 1)%nat with (S (List.length rest)) by lia.
    now rewrite Nat.Div0.mod_same.
  - rewrite Nat.mod_small by lia.
    rewrite app_nth1 by lia.
    replace (j + 1)%nat with (S j) by lia. reflexivity.
Qed.

Lemma cycle_take_rotated (frame0 : Frame) (rest : list Frame) (k : nat) :
  cycle_take k (cycle (rest ++ [frame0]))
  = map (fun i => nth ((i + 1) mod List.length (frame0 :: rest))
                      (frame0 :: rest) frame0)
        (seq 0 k).
Proof.
  rewrite (cycle_take_cycling (rest ++ [frame0]) frame0 k) with (c := O).
  - apply map_ext. intros i.
    rewrite length_app. cbn [List.length Nat.add].
    replace (List.length rest + 1)%nat with (S (List.length rest)) by lia.
    apply nth_rotated.
  - destruct rest; discriminate.
  - simpl. now split.
Qed.

Lemma rotated_alive (frame0 : Frame) (rest : list Frame) :
  alive (cycle (rest ++ [frame0])).
Proof. apply cycle_alive. destruct rest; discriminate. Qed.

(** C3. With frames [frame0 :: rest], [n] of them, the loop's [i]-th
    visit is [frames[(i + 1) mod n]], for every [i]: the iterator hands
    the frames out in that order, and a run that no signal disturbs is,
    after any number [k] of iterations, still running, having made the
    calls of setup, of the full render of [frame0] and, in order, of the
    sleep and diff of each of those [k] visits. *)
Theorem run_animation_visiting_order (delay : Q) (frame0 : Frame)
    (rest : list Frame) (k : nat) :
  let self := mkRenderer delay (frame0 :: rest) in
  let n := List.length (frames self) in
  let visits := map (fun i => nth ((i + 1) mod n) (frames self) frame0) (seq 0 k) in
  cycle_take k (cycle (tl (frames self) ++ [frame0])) = visits
  /\ run_animation self k (mkWorld [] None)
     = (Running, mkWorld (setup_ops frame0 ++ loop_ops delay frame0 visits) None).
Proof.
  intros self n visits. subst self n visits. cbn [frames tl].
  split; [apply cycle_take_rotated|].
  unfold run_animation. cbn [frames frame_delay].
  unfold try_finally, try_except, bind.
  rewrite setup_run, calls_run.
  rewrite animation_loop_undisturbed by apply rotated_alive.
  now rewrite cycle_take_rotated.
Qed.

Example visiting_order_of_three (A B C : Frame) :
  cycle_take 7 (cycle ([B; C] ++ [A])) = [B; C; A; B; C; A; B].
Proof. reflexivity. Qed.

(** ** Cancellation and the empty sequence *)

Lemma setup_ops_length (frame0 : Frame) :
  (5 <= List.length (setup_ops frame0))%nat.
Proof.
  unfold setup_ops, render_frame, enable_synchronized_mode.
  cbn [List.length app]. rewrite length_app. cbn [List.length]. lia.
Qed.

(** C7. Whatever call of the run the interrupt signal replaces, one of
    the loop body included, [run_animation] catches the
    [KeyboardInterrupt] and returns normally after the calls of teardown:
    show the cursor, clear the screen, switch synchronized updates off
    (with a flush), write the "stopped" notice, flush.  Before them the
    trace holds the calls made up to the signal, in the loop those of
    setup and of the diff passes done and begun. *)
Theorem run_animation_cancelled (delay : Q) (frame0 : Frame) (rest : list Frame)
    (m fuel : nat) :
  let self := mkRenderer delay (frame0 :: rest) in
  let visits := cycle_take fuel (cycle (rest ++ [frame0])) in
  (m <= fuel)%nat ->
  exists before : list op,
    run_animation self fuel (mkWorld [] (Some m))
    = (Done tt, mkWorld (before ++ teardown_ops) None)
    /\ before = firstn m (setup_ops frame0 ++ loop_ops delay frame0 visits)
    /\ ((List.length (setup_ops frame0) <= m)%nat ->
        before = (setup_ops frame0
                  ++ firstn (m - List.length (setup_ops frame0))
                            (loop_ops delay frame0 visits))%list)
    /\ teardown_ops
       = [ShowCursor; ClearScreen; DisableSync; Flush; Text stopped_notice; Flush].
Proof.
  intros self visits Hm. subst self visits.
  pose proof (setup_ops_length frame0) as Hlen.
  eexists. split; [|split; [reflexivity|split; [|reflexivity]]].
  - unfold run_animation. cbn [frames frame_delay].
    unfold try_finally, try_except, bind.
    rewrite setup_run, calls_run. cbn [app].
    destruct (Nat.ltb_spec m (List.length (setup_ops frame0))) as [Hin|Hpast].
    + cbn [is_KeyboardInterrupt]. unfold ret.
      rewrite teardown_run, calls_run.
      rewrite firstn_app.
      replace (m - List.length (setup_ops frame0))%nat with O by lia.
      cbn [firstn]. now rewrite app_nil_r.
    + rewrite animation_loop_interrupted by (try apply rotated_alive; lia).
      cbn [is_KeyboardInterrupt]. unfold ret.
      rewrite teardown_run, calls_run.
      rewrite firstn_app.
      rewrite (@firstn_all2 _ m (setup_ops frame0)) by exact Hpast.
      now rewrite <- !app_assoc.
  - intros Hpast. rewrite firstn_app.
    now rewrite (@firstn_all2 _ m (setup_ops frame0)) by exact Hpast.
Qed.

Lemma run_animation_cancelled_witness :
  let a := Frame_init "a" "x" in
  let b := Frame_init "b" "y" in
  run_animation (mkRenderer (1 # 50) [a; b]) 9 (mkWorld [] (Some 9%nat))
  = (Done tt,
     mkWorld ([HideCursor; EnableSync; Flush;
               ClearScreen; MoveCursor 0 0; Text "x"; Flush;
               Sleep (1 # 50); MoveCursor 0 0]
              ++ teardown_ops) None).
Proof.
  intros a b.
  destruct (run_animation_cancelled (1 # 50) a [b] 9 9 (le_n 9))
    as (before & Hrun & Hbefore & _).
  rewrite Hrun, Hbefore. reflexivity.
Defined.

(** C8. With no frames [run_animation] returns at once: no call is made,
    of setup, of teardown or any other, and nothing else changes. *)
Theorem run_animation_no_frames (self : DifferentialRenderer) (fuel : nat)
    (w : world) :
  frames self = [] -> run_animation self fuel w = (Done tt, w).
Proof. intros H. unfold run_animation. now rewrite H. Qed.

Lemma run_animation_no_frames_witness :
  run_animation (DifferentialRenderer_init (1 # 50)) 3 (mkWorld [] (Some 0%nat))
  = (Done tt, mkWorld [] (Some 0%nat)).
Proof.
  apply (run_animation_no_frames (DifferentialRenderer_init (1 # 50)) 3
           (mkWorld [] (Some 0%nat))).
  reflexivity.
Defined.

(** ** Loading *)

Lemma insert_keyed_perm (x : Z * string) (l : list (Z * string)) :
  Permutation (insert_keyed x l) (x :: l).
Proof.
  induction l as [|y l IH]; simpl; trivial.
  destruct (fst x <=? fst y); trivial.
  rewrite IH. apply perm_swap.
Qed.

Lemma sort_keyed_perm (l : list (Z * string)) : Permutation (sort_keyed l) l.
Proof.
  induction l as [|x l IH]; simpl; trivial.
  now rewrite insert_keyed_perm, IH.
Qed.

Lemma insert_keyed_sorted (x : Z * string) (l : list (Z * string)) :
  StronglySorted key_le l -> StronglySorted key_le (insert_keyed x l).
Proof.
  induction l as [|y l IH]; intros Hl; simpl.
  - constructor; constructor.
  - inversion Hl as [|? ? Hl' Hy]; subst.
    destruct (Z.leb_spec (fst x) (fst y)) as [Hle|Hgt].
    + constructor; trivial. constructor; trivial.
      eapply Forall_impl; [|exact Hy]. unfold key_le. intros a Ha. lia.
    + constructor; [now apply IH|].
      rewrite (Forall_forall (key_le y)). intros a Ha.
      apply (Permutation_in _ (insert_keyed_perm x l)) in Ha.
      destruct Ha as [<-|Ha]; [unfold key_le; lia|].
      rewrite Forall_forall in Hy. now apply Hy.
Qed.

Lemma sort_keyed_sorted (l : list (Z * string)) :
  StronglySorted key_le (sort_keyed l).
Proof.
  induction l as [|x l IH]; simpl; [constructor|].
  now apply insert_keyed_sorted.
Qed.

Lemma with_keys_ok (xs : list string) :
  Forall has_index xs ->
  with_keys xs = Ok (map (fun x => (index_of x, x)) xs).
Proof.
  induction 1 as [|x xs [k Hk] _ IH]; simpl; trivial.
  unfold index_of. now rewrite Hk, IH.
Qed.

Lemma with_keys_length (xs : list string) :
  forall ks, with_keys xs = Ok ks -> List.length ks = List.length xs.
Proof.
  induction xs as [|x xs IH]; simpl; intros ks H.
  - now inversion H.
  - destruct (frame_index x); [|discriminate].
    destruct (with_keys xs) as [ks'|]; [|discriminate].
    inversion H; subst. simpl. now rewrite (IH ks').
Qed.

Lemma frame_index_error (f_name : string) (e : exn) :
  frame_index f_name = Err e ->
  e <> no_frame_files /\ is_Exception e = true.
Proof.
  unfold frame_index, PyInt.int.
  destruct (PyInt.parse _); [discriminate|].
  intros H. inversion H; subst. split; [discriminate | reflexivity].
Qed.

Lemma with_keys_error (xs : list string) (e : exn) :
  with_keys xs = Err e -> e <> no_frame_files /\ is_Exception e = true.
Proof.
  induction xs as [|x xs IH]; simpl; [discriminate|].
  destruct (frame_index x) as [k|e'] eqn:E.
  - destruct (with_keys xs); [discriminate|].
    intros H. inversion H; subst. now apply IH.
  - intros H. inversion H; subst. now apply (frame_index_error x).
Qed.

Lemma sorted_by_index_length (xs l : list string) :
  sorted_by_index xs = Ok l -> List.length l = List.length xs.
Proof.
  unfold sorted_by_index. destruct (with_keys xs) as [ks|] eqn:E; [|discriminate].
  intros H. inversion H; subst.
  rewrite length_map, (Permutation_length (sort_keyed_perm ks)).
  now apply with_keys_length.
Qed.

(** With an index on every name the sort succeeds: the names come back
    permuted and in ascending order of index. *)
Lemma sorted_by_index_ok (xs : list string) :
  Forall has_index xs ->
  exists l,
    sorted_by_index xs = Ok l
    /\ Permutation l xs
    /\ StronglySorted (fun a b => index_of a <= index_of b) l.
Proof.
  intros Hxs. unfold sorted_by_index. rewrite (with_keys_ok xs Hxs).
  set (ks := map (fun x => (index_of x, x)) xs).
  eexists. split; [reflexivity|]. split.
  - transitivity (map snd ks).
    + apply Permutation_map, sort_keyed_perm.
    + subst ks. rewrite map_map. simpl. now rewrite map_id.
  - assert (Hkeys : Forall (fun p => fst p = index_of (snd p)) (sort_keyed ks)).
    { rewrite Forall_forall. intros p Hp.
      apply (Permutation_in _ (sort_keyed_perm ks)) in Hp.
      subst ks. apply in_map_iff in Hp as (x & <- & _). reflexivity. }
    pose proof (sort_keyed_sorted ks) as Hs.
    induction Hs as [|p l Hs IH Hp]; simpl; constructor.
    + apply IH. now inversion Hkeys.
    + inversion Hkeys as [|? ? Hpk Hlk]; subst.
      rewrite Forall_forall in *. intros a Ha.
      apply in_map_iff in Ha as (q & <- & Hq).
      specialize (Hp q Hq). specialize (Hlk q Hq).
      unfold key_le in Hp. lia.
Qed.

Lemma with_frames_same (self : DifferentialRenderer) :
  with_frames self (frames self ++ []) = self.
Proof. destruct self. unfold with_frames. simpl. now rewrite app_nil_r. Qed.

(** The read loop appends one frame per file, in order, to whatever the
    renderer holds, and returns the length of the whole list. *)
Lemma read_frames_ok (fs : filesystem) (folder_path : string)
    (files : list string) :
  Forall (readable fs folder_path) files ->
  forall self,
    read_frames fs folder_path files self
    = (let loaded := map (fun f => Frame_init f (content_of fs folder_path f)) files in
       (Ok (Z.of_nat (List.length (frames self ++ loaded))),
        with_frames self (frames self ++ loaded))).
Proof.
  induction 1 as [|f files [content Hf] _ IH]; intros self; cbn zeta.
  - simpl. now rewrite with_frames_same, app_nil_r.
  - cbn [read_frames map]. rewrite Hf, IH. cbn zeta.
    unfold with_frames, content_of. cbn [frames frame_delay].
    rewrite Hf, <- !app_assoc. reflexivity.
Qed.

Lemma read_frames_result (fs : filesystem) (folder_path : string)
    (files : list string) :
  forall self n self',
    read_frames fs folder_path files self = (Ok n, self') ->
    Forall (readable fs folder_path) files.
Proof.
  induction files as [|f files IH]; intros self n self' H; constructor.
  - cbn [read_frames] in H. unfold readable.
    destruct (read_text fs (path_join folder_path f)) as [c|]; [|discriminate].
    now exists c.
  - cbn [read_frames] in H.
    destruct (read_text fs (path_join folder_path f)) as [c|]; [|discriminate].
    eapply IH. exact H.
Qed.

Lemma read_frames_error (fs : filesystem) (folder_path : string)
    (files : list string) :
  forall self e self',
    read_frames fs folder_path files self = (Err e, self') ->
    e <> no_frame_files /\ is_Exception e = true.
Proof.
  induction files as [|f files IH]; intros self e self' H;
    cbn [read_frames] in H; [discriminate|].
  destruct (read_text fs (path_join folder_path f)) as [c|msg].
  - eapply IH. exact H.
  - inversion H; subst. split; [discriminate | reflexivity].
Qed.

Lemma load_frames_unfold (fs : filesystem) (self : DifferentialRenderer)
    (folder_path : string) (entries : list string) :
  listdir fs (getcwd fs ++ "/" ++ folder_path) = Success entries ->
  load_frames fs self folder_path
  = match sorted_by_index (filter is_frame_file entries) with
    | Err e => (Err e, self)
    | Ok [] => (Err no_frame_files, self)
    | Ok frame_files => read_frames fs folder_path frame_files self
    end.
Proof. intros H. unfold load_frames. now rewrite H. Qed.

(** Whatever [load_frames] raises is an [Exception]. *)
Lemma load_frames_error (fs : filesystem) (self self' : DifferentialRenderer)
    (folder_path : string) (e : exn) :
  load_frames fs self folder_path = (Err e, self') -> is_Exception e = true.
Proof.
  unfold load_frames.
  destruct (listdir fs _) as [entries|msg]; [|intros H; now inversion H].
  unfold sorted_by_index.
  destruct (with_keys _) as [ks|e'] eqn:E.
  - destruct (map snd (sort_keyed ks)) as [|f files].
    + intros H. now inversion H.
    + intros H. now apply read_frames_error in H.
  - intros H. inversion H; subst. now apply with_keys_error in E.
Qed.

(** A load that fails keeps [main] out of playback: its one call is the
    print of the error. *)
Lemma main_load_error (fs : filesystem) (fuel : nat) (w : world)
    (e : exn) (r : DifferentialRenderer) :
  load_frames fs (DifferentialRenderer_init (1 # 50)) "ghostty-animation-frames/"
  = (Err e, r) ->
  main fs fuel w = call (Print ("Error: " ++ exn_str e)) w.
Proof.
  intros H. unfold main. cbv zeta. rewrite H.
  unfold try_except, raise. now rewrite (load_frames_error _ _ _ _ _ H).
Qed.

(** C9, as the code has it.  For a directory that can be listed:
    [load_frames] raises "No frame files found" exactly when no entry
    matches the pattern; it then leaves the renderer's frames as they
    were, and [main] prints the error and makes no other call.  When
    entries match, each carries an integer index between its last
    underscore and ".txt", and each can be read, the frames are appended
    in ascending order of index and the call returns the length of the
    renderer's frame list, which for a renderer without frames is the
    number of matching files. *)
Theorem load_frames_contract (fs : filesystem) (self : DifferentialRenderer)
    (folder_path : string) (entries : list string) :
  listdir fs (getcwd fs ++ "/" ++ folder_path) = Success entries ->
  let frame_files := filter is_frame_file entries in
  (fst (load_frames fs self folder_path) = Err no_frame_files
   <-> frame_files = [])
  /\ (frame_files = [] ->
      load_frames fs self folder_path = (Err no_frame_files, self)
      /\ (folder_path = "ghostty-animation-frames/" ->
          forall fuel w,
            main fs fuel w = call (Print "Error: No frame files found") w))
  /\ (frame_files <> [] ->
      Forall has_index frame_files ->
      Forall (readable fs folder_path) frame_files ->
      exists ordered loaded,
        Permutation ordered frame_files
        /\ StronglySorted (fun a b => index_of a <= index_of b) ordered
        /\ loaded = map (fun f => Frame_init f (content_of fs folder_path f)) ordered
        /\ load_frames fs self folder_path
           = (Ok (Z.of_nat (List.length (frames self ++ loaded))),
              with_frames self (frames self ++ loaded))
        /\ (frames self = [] ->
            fst (load_frames fs self folder_path)
            = Ok (Z.of_nat (List.length frame_files)))).
Proof.
  intros Hls frame_files.
  assert (Hnone : frame_files = [] ->
            forall r, load_frames fs r folder_path = (Err no_frame_files, r)).
  { intros Hnil r. rewrite (load_frames_unfold _ _ _ _ Hls).
    fold frame_files. now rewrite Hnil. }
  split; [|split].
  - split; [|intros Hnil; now rewrite (Hnone Hnil)].
    rewrite (load_frames_unfold _ _ _ _ Hls). fold frame_files.
    destruct (sorted_by_index frame_files) as [[|f files]|e] eqn:E.
    + intros _. apply sorted_by_index_length in E.
      destruct frame_files; [trivial|discriminate].
    + destruct (read_frames fs folder_path (f :: files) self) as [[n|e] r] eqn:R.
      * discriminate.
      * apply read_frames_error in R as [Hne _].
        simpl. intros H. inversion H. congruence.
    + unfold sorted_by_index in E.
      destruct (with_keys frame_files) as [ks|e'] eqn:K; [discriminate|].
      inversion E; subst. apply with_keys_error in K as [Hne _].
      simpl. intros H. inversion H. congruence.
  - intros Hnil. split; [now apply Hnone|].
    intros -> fuel w.
    now rewrite (main_load_error fs fuel w no_frame_files _ (Hnone Hnil _)).
  - intros Hsome Hidx Hread.
    destruct (sorted_by_index_ok frame_files Hidx) as (ordered & Hsort & Hperm & Hasc).
    exists ordered. eexists. split; [exact Hperm|]. split; [exact Hasc|].
    split; [reflexivity|].
    assert (Hload : load_frames fs self folder_path
                    = read_frames fs folder_path ordered self).
    { rewrite (load_frames_unfold _ _ _ _ Hls). fold frame_files.
      rewrite Hsort. destruct ordered as [|f files]; trivial.
      apply Permutation_nil in Hperm. congruence. }
    assert (Hread' : Forall (readable fs folder_path) ordered).
    { rewrite Forall_forall in *. intros f Hf. apply Hread.
      now apply (Permutation_in _ Hperm). }
    rewrite Hload, (read_frames_ok fs folder_path ordered Hread' self).
    cbv zeta. split; [reflexivity|].
    intros Hfresh. rewrite Hfresh. simpl.
    now rewrite length_map, (Permutation_length Hperm).
Qed.

Lemma load_frames_contract_witness :
  fst (load_frames two_frames_dir (DifferentialRenderer_init (1 # 50))
                   animation_folder) = Ok 2
  /\ load_frames no_frames_dir (DifferentialRenderer_init (1 # 50)) animation_folder
     = (Err no_frame_files, DifferentialRenderer_init (1 # 50))
  /\ main no_frames_dir 5 (mkWorld [] None)
     = (Done tt, mkWorld [Print "Error: No frame files found"] None).
Proof.
  split; [|split].
  - destruct (load_frames_contract two_frames_dir
                (DifferentialRenderer_init (1 # 50)) animation_folder
                ["frame_cleaned_10.txt"; "notes.md"; "frame_cleaned_2.txt"]
                eq_refl) as (_ & _ & H).
    destruct H as (ordered & loaded & _ & _ & _ & _ & Hn).
    + discriminate.
    + repeat constructor; eexists; vm_compute; reflexivity.
    + repeat constructor; eexists; vm_compute; reflexivity.
    + exact (Hn eq_refl).
  - destruct (load_frames_contract no_frames_dir
                (DifferentialRenderer_init (1 # 50)) animation_folder
                ["notes.md"] eq_refl) as (_ & H & _).
    exact (proj1 (H eq_refl)).
  - destruct (load_frames_contract no_frames_dir
                (DifferentialRenderer_init (1 # 50)) animation_folder
                ["notes.md"] eq_refl) as (_ & H & _).
    rewrite (proj2 (H eq_refl) eq_refl). reflexivity.
Defined.

(** C9 as stated fails on a file that matches the prefix and the suffix
    and has no integer between them: matching files exist, and the call
    neither returns a count nor loads a frame; [int] raises. *)
Lemma load_frames_unnumbered_file :
  filter is_frame_file ["frame_cleaned_x.txt"] <> []
  /\ load_frames unnumbered_dir (DifferentialRenderer_init (1 # 50)) animation_folder
     = (Err (ValueError "invalid literal for int() with base 10: 'x'"),
        DifferentialRenderer_init (1 # 50))
  /\ ~ exists n r,
        load_frames unnumbered_dir (DifferentialRenderer_init (1 # 50))
                    animation_folder = (Ok n, r).
Proof.
  split; [discriminate|]. split; [reflexivity|].
  intros (n & r & H). vm_compute in H. discriminate.
Qed.

(** A successful load read every file of one non-empty list that does
    not depend on the renderer. *)
Lemma load_frames_ok_files (fs : filesystem) (self self' : DifferentialRenderer)
    (folder_path : string) (n : Z) :
  load_frames fs self folder_path = (Ok n, self') ->
  exists files,
    files <> []
    /\ Forall (readable fs folder_path) files
    /\ forall other,
         load_frames fs other folder_path
         = read_frames fs folder_path files other.
Proof.
  unfold load_frames.
  destruct (listdir fs _) as [entries|msg]; [|discriminate].
  destruct (sorted_by_index _) as [[|f files]|e]; try discriminate.
  intros H. exists (f :: files). split; [discriminate|].
  split; [|reflexivity].
  eapply read_frames_result. exact H.
Qed.

(** C10. [load_frames] appends to the frames the renderer already holds
    and returns the length of the whole list; so on a new renderer a
    second load of the same directory returns twice what the first did
    and leaves every frame in the list twice. *)
Theorem load_frames_accumulates (fs : filesystem) (folder_path : string) :
  (forall self n self',
     load_frames fs self folder_path = (Ok n, self') ->
     exists loaded,
       loaded <> []
       /\ frames self' = (frames self ++ loaded)%list
       /\ n = Z.of_nat (List.length (frames self')))
  /\ (forall delay n1 r1,
        load_frames fs (DifferentialRenderer_init delay) folder_path = (Ok n1, r1) ->
        exists r2,
          load_frames fs r1 folder_path = (Ok (2 * n1), r2)
          /\ frames r2 = (frames r1 ++ frames r1)%list).
Proof.
  split.
  - intros self n self' H.
    destruct (load_frames_ok_files _ _ _ _ _ H) as (files & Hne & Hread & Hload).
    rewrite Hload, (read_frames_ok _ _ _ Hread) in H. cbv zeta in H.
    inversion H; subst. eexists. split; [|split; reflexivity].
    destruct files; [congruence|discriminate].
  - intros delay n1 r1 H.
    destruct (load_frames_ok_files _ _ _ _ _ H) as (files & _ & Hread & Hload).
    rewrite Hload, (read_frames_ok _ _ _ Hread) in H. cbv zeta in H.
    inversion H; subst. eexists. split.
    + rewrite Hload, (read_frames_ok _ _ _ Hread). cbv zeta.
      f_equal. f_equal. cbn [frames with_frames DifferentialRenderer_init app].
      rewrite length_app. lia.
    + reflexivity.
Qed.

Lemma load_frames_accumulates_witness :
  let r0 := DifferentialRenderer_init (1 # 50) in
  let b := Frame_init "frame_cleaned_2.txt" "b" in
  let j := Frame_init "frame_cleaned_10.txt" "j" in
  load_frames two_frames_dir r0 animation_folder = (Ok 2, with_frames r0 [b; j])
  /\ exists r2,
       load_frames two_frames_dir (with_frames r0 [b; j]) animation_folder
       = (Ok 4, r2)
       /\ frames r2 = [b; j; b; j].
Proof.
  intros r0 b j. split; [reflexivity|].
  exact (proj2 (load_frames_accumulates two_frames_dir animation_folder)
               (1 # 50)%Q 2 (with_frames r0 [b; j]) eq_refl).
Defined.

(** ** What the screen shows *)

Lemma draw_all_app (s : screen) (a b : list op) :
  draw_all s (a ++ b) = draw_all (draw_all s a) b.
Proof. apply fold_left_app. Qed.

Lemma draw_texts (ts : list string) (y' : Z) :
  forall s,
    cursor_row s = Some y' ->
    cursor_row (draw_all s (map Text ts)) = Some y'
    /\ forall y, row_texts (draw_all s (map Text ts)) y
                 = if y =? y' then (row_texts s y ++ ts)%list else row_texts s y.
Proof.
  induction ts as [|t ts IH]; intros s Hs.
  - split; trivial. intros y. simpl. rewrite app_nil_r. now destruct (y =? y').
  - cbn [map draw_all fold_left]. cbn [draw]. rewrite Hs.
    destruct (IH (mkScreen (Some y') (set_row (row_texts s) y' (row_texts s y' ++ [t]))))
      as [Hc Hr]; [reflexivity|].
    split; [exact Hc|]. intros y. unfold draw_all in Hr. rewrite Hr.
    cbn [row_texts]. unfold set_row.
    destruct (Z.eqb_spec y y') as [->|Hne]; trivial.
    now rewrite <- app_assoc.
Qed.

Lemma draw_block (upd : Z -> option (list string)) (s : screen) (y' y : Z) :
  row_texts (draw_all s (block_of upd y')) y
  = if y =? y'
    then match upd y' with Some ts => ts | None => row_texts s y end
    else row_texts s y.
Proof.
  unfold block_of. destruct (upd y') as [ts|]; [|now destruct (y =? y')].
  cbn [draw_all fold_left]. cbn [draw cursor_row row_texts].
  destruct (draw_texts ts y'
              (mkScreen (Some y') (set_row (row_texts s) y' [])) eq_refl) as [_ Hr].
  unfold draw_all in Hr. rewrite Hr. cbn [row_texts]. unfold set_row.
  now destruct (y =? y').
Qed.

Lemma draw_blocks (upd : Z -> option (list string)) (y : Z) (l : list Z) :
  forall s,
    row_texts (draw_all s (flat_map (block_of upd) l)) y
    = if existsb (Z.eqb y) l
      then match upd y with Some ts => ts | None => row_texts s y end
      else row_texts s y.
Proof.
  induction l as [|y' l IH]; intros s; trivial.
  cbn [flat_map existsb]. rewrite draw_all_app, IH, draw_block.
  destruct (Z.eqb_spec y y') as [->|Hne]; cbn [orb].
  - destruct (existsb (Z.eqb y') l), (upd y'); trivial.
  - reflexivity.
Qed.

Lemma existsb_range (a b y : Z) : existsb (Z.eqb y) (range a b) = in_rows a b y.
Proof.
  apply eq_true_iff_eq. rewrite existsb_exists. unfold range, in_rows.
  rewrite andb_true_iff, Z.leb_le, Z.ltb_lt. split.
  - intros (x & Hx & Heq). apply Z.eqb_eq in Heq. subst x.
    apply in_map_iff in Hx as (i & <- & Hi). apply in_seq in Hi. lia.
  - intros Hy. exists y. split; [|apply Z.eqb_refl].
    apply in_map_iff. exists (Z.to_nat (y - a)). split; [lia|].
    apply in_seq. lia.
Qed.


Lemma render_row_difference_block_of (current next_frame : Frame) (y : Z) :
  render_row_difference current next_frame y
  = block_of (diff_update current next_frame) y.
Proof.
  unfold render_row_difference, block_of, diff_update, row_of.
  destruct (truthy _); trivial.
  now destruct (get_line next_frame y).
Qed.

Lemma erase_row_block_of (y : Z) : erase_row y = block_of (fun _ => Some []) y.
Proof. reflexivity. Qed.

Lemma unchanged_rows_agree (old_line new_line : option string) :
  truthy (find_line_differences old_line new_line) = false ->
  old_line = new_line.
Proof.
  destruct old_line as [o|], new_line as [n|]; simpl; try discriminate; trivial.
  destruct (String.eqb_spec o n) as [->|]; [trivial|discriminate].
Qed.

(** The diff pass turns a screen that shows [current] into one that shows
    [next_frame], whatever the two frames. *)
Lemma draw_render_frame_difference (current next_frame : Frame) (s : screen) :
  shows s current ->
  shows (draw_all s (render_frame_difference current next_frame)) next_frame.
Proof.
  intros Hs y. unfold render_frame_difference. cbv zeta.
  rewrite !draw_all_app. cbn [draw_all fold_left draw].
  set (s1 := fold_left draw
               (flat_map (render_row_difference current next_frame)
                  (range 0 (Z.max (height current) (height next_frame)))) s).
  assert (H1 : forall y, in_rows (height next_frame) (height current) y = false ->
                         row_texts s1 y = row_of next_frame y).
  { intros y0 Hout. subst s1.
    rewrite (flat_map_ext _ _ (render_row_difference_block_of current next_frame)).
    fold (draw_all s (flat_map (block_of (diff_update current next_frame))
                               (range 0 (Z.max (height current) (height next_frame))))).
    rewrite draw_blocks, existsb_range. unfold diff_update.
    destruct (in_rows 0 _ y0) eqn:Hin.
    - destruct (truthy _) eqn:Hd; trivial.
      rewrite Hs. unfold row_of. now rewrite (unchanged_rows_agree _ _ Hd).
    - rewrite Hs. unfold row_of, in_rows in *.
      rewrite !get_line_outside; trivial;
        destruct (Z.leb_spec 0 y0); simpl in Hin; try lia;
        apply Z.ltb_ge in Hin; lia. }
  destruct (Z.ltb_spec (height next_frame) (height current)) as [Hlt|Hge].
  - rewrite (flat_map_ext _ _ erase_row_block_of).
    fold (draw_all s1 (flat_map (block_of (fun _ => Some []))
                                (range (height next_frame) (height current)))).
    rewrite draw_blocks, existsb_range.
    destruct (in_rows (height next_frame) (height current) y) eqn:Hin.
    + unfold row_of. rewrite get_line_outside; trivial.
      unfold in_rows in Hin. apply andb_true_iff in Hin as [Hlo _].
      apply Z.leb_le in Hlo. lia.
    + now apply H1.
  - cbn [fold_left]. apply H1. unfold in_rows.
    destruct (Z.leb_spec (height next_frame) y); trivial.
    apply Z.ltb_ge. lia.
Qed.

Lemma combine_snoc {A B} (l : list A) (l' : list B) (a : A) (b : B) :
  List.length l = List.length l' ->
  combine (l ++ [a]) (l' ++ [b]) = (combine l l' ++ [(a, b)])%list.
Proof.
  revert l'. induction l as [|x l IH]; intros [|y l'] H; simpl in *;
    try discriminate; trivial.
  now rewrite IH by congruence.
Qed.

Lemma enumerate_snoc {A} (l : list A) (x : A) :
  enumerate (l ++ [x]) = (enumerate l ++ [(Z.of_nat (List.length l), x)])%list.
Proof.
  unfold enumerate. change 0 with (Z.of_nat 0).
  rewrite !range_of_nat, !Nat.sub_0_r, length_app. cbn [List.length].
  rewrite Nat.add_1_r, seq_S, map_app. cbn [map Nat.add].
  apply combine_snoc. now rewrite length_map, length_seq.
Qed.

(** The row writes of a full render, on a blank screen, put each row of
    the list on its own screen row. *)
Lemma draw_rows (ls : list string) (s : screen) :
  (forall y, row_texts s y = []) ->
  forall y,
    row_texts
      (draw_all s (flat_map (fun '(y, line) => [MoveCursor 0 y; Text line])
                            (enumerate ls))) y
    = match nth_error ls (Z.to_nat y) with
      | Some row => if 0 <=? y then [row] else []
      | None => []
      end.
Proof.
  intros Hs. induction ls as [|x ls IH] using rev_ind; intros y.
  - simpl. rewrite Hs. now destruct (Z.to_nat y).
  - rewrite enumerate_snoc, flat_map_app, draw_all_app.
    cbn [flat_map app draw_all fold_left draw cursor_row row_texts].
    unfold set_row.
    fold (draw_all s (flat_map (fun '(y, line) => [MoveCursor 0 y; Text line])
                               (enumerate ls))).
    rewrite !IH.
    destruct (Z.eqb_spec y (Z.of_nat (List.length ls))) as [->|Hne].
    + rewrite Nat2Z.id, nth_error_app2, Nat.sub_diag by lia. cbn [nth_error].
      replace (nth_error ls (List.length ls)) with (@None string)
        by (symmetry; apply nth_error_None; lia).
      now replace (0 <=? Z.of_nat (List.length ls)) with true
        by (symmetry; apply Z.leb_le; lia).
    + destruct (Nat.lt_ge_cases (Z.to_nat y) (List.length ls)) as [Hlt|Hge].
      * now rewrite nth_error_app1 by exact Hlt.
      * replace (nth_error ls (Z.to_nat y)) with (@None string)
          by (symmetry; apply nth_error_None; lia).
        destruct (Z.leb_spec 0 y) as [Hpos|Hneg].
        -- replace (nth_error (ls ++ [x]) (Z.to_nat y)) with (@None string);
             trivial.
           symmetry. apply nth_error_None. rewrite length_app. simpl. lia.
        -- now destruct (nth_error (ls ++ [x]) (Z.to_nat y)).
Qed.

Lemma row_of_Frame_init (nm content : string) (y : Z) :
  row_of (Frame_init nm content) y
  = match nth_error (Py.splitlines content) (Z.to_nat y) with
    | Some row => if 0 <=? y then [row] else []
    | None => []
    end.
Proof.
  unfold row_of, get_line. cbn [height lines Frame_init].
  destruct (Z.leb_spec 0 y) as [Hpos|Hneg]; cbn [andb].
  - destruct (Z.ltb_spec y (Z.of_nat (List.length (Py.splitlines content))))
      as [Hlt|Hge]; trivial.
    replace (nth_error (Py.splitlines content) (Z.to_nat y)) with (@None string);
      trivial.
    symmetry. apply nth_error_None. lia.
  - now destruct (nth_error (Py.splitlines content) (Z.to_nat y)).
Qed.

Lemma draw_render_frame (nm content : string) (s : screen) :
  shows (draw_all s (render_frame (Frame_init nm content))) (Frame_init nm content).
Proof.
  intros y. unfold render_frame.
  cbn [app draw_all fold_left draw]. rewrite fold_left_app.
  cbn [fold_left draw].
  rewrite row_of_Frame_init. cbn [lines Frame_init].
  now apply (draw_rows (Py.splitlines content) (mkScreen (Some 0) (fun _ => []))).
Qed.

Lemma draw_loop_ops (delay : Q) (visits : list Frame) :
  forall current s,
    shows s current ->
    shows (draw_all s (loop_ops delay current visits)) (last visits current).
Proof.
  induction visits as [|v visits IH]; intros current s Hs; trivial.
  cbn [loop_ops draw_all fold_left draw]. rewrite fold_left_app.
  replace (last (v :: visits) current) with (last visits v)
    by (clear; revert v; induction visits as [|w visits IH]; intros v;
        [reflexivity | cbn [last]; destruct visits; trivial]).
  apply IH. now apply draw_render_frame_difference.
Qed.

(** X1. A full render leaves on the screen exactly the rows of the frame,
    whatever the screen held before: row [y] holds the one text
    [lines[y]] inside the frame and nothing outside it. *)
Theorem render_frame_shows_frame (nm content : string) (s : screen) (y : Z) :
  let f := Frame_init nm content in
  row_texts (draw_all s (render_frame f)) y
  = match get_line f y with
    | Some row => [row]
    | None => []
    end.
Proof. intros f. apply (draw_render_frame nm content s y). Qed.

(** X2. The diff pass is correct: on a screen that shows [current] it
    leaves a screen that shows [next_frame]; so a full render of
    [current] followed by the diff pass shows [next_frame] row for row. *)
Theorem render_frame_difference_shows_next (n1 c1 n2 c2 : string) (s : screen) :
  let current := Frame_init n1 c1 in
  let next_frame := Frame_init n2 c2 in
  (forall s', shows s' current ->
              shows (draw_all s' (render_frame_difference current next_frame))
                    next_frame)
  /\ shows (draw_all s (render_frame current
                        ++ render_frame_difference current next_frame))
           next_frame.
Proof.
  intros current next_frame. split.
  - intros s'. apply draw_render_frame_difference.
  - rewrite draw_all_app. apply draw_render_frame_difference.
    apply draw_render_frame.
Qed.

Lemma render_frame_difference_shows_next_witness :
  let current := Frame_init "a" "x" in
  let next_frame := Frame_init "b" "y" in
  let s := mkScreen None (fun y => if y =? 0 then ["x"] else []) in
  row_texts (draw_all s (render_frame_difference current next_frame)) 0 = ["y"].
Proof.
  intros current next_frame s.
  apply (proj1 (render_frame_difference_shows_next "a" "x" "b" "y" s) s).
  intros [|p|p]; try reflexivity; destruct p; reflexivity.
Defined.

Lemma last_visit (frame0 : Frame) (rest : list Frame) (k : nat) :
  last (cycle_take k (cycle (rest ++ [frame0]))) frame0
  = nth (k mod List.length (frame0 :: rest)) (frame0 :: rest) frame0.
Proof.
  rewrite cycle_take_rotated. destruct k as [|k].
  - now rewrite Nat.Div0.mod_0_l.
  - rewrite seq_S, map_app. cbn [map]. rewrite last_last.
    now rewrite Nat.add_1_r.
Qed.

(** X3. Playback keeps the screen in step with the loop: in a run that no
    signal disturbs, after [k] iterations the rows on the screen are those
    of [frames[k mod n]], the frame visited last, whatever the screen held
    when the run began. *)
Theorem run_animation_screen (delay : Q) (src0 : string * string)
    (srcs : list (string * string)) (k : nat) (s : screen) :
  let fs := frames_of (src0 :: srcs) in
  let self := mkRenderer delay fs in
  exists t,
    run_animation self k (mkWorld [] None) = (Running, mkWorld t None)
    /\ shows (draw_all s t)
             (nth (k mod List.length fs) fs (Frame_init (fst src0) (snd src0))).
Proof.
  intros fs self. subst fs self. cbn [frames_of map].
  fold (frames_of srcs).
  set (frame0 := Frame_init (fst src0) (snd src0)).
  eexists. split.
  - unfold run_animation. cbn [frames frame_delay].
    unfold try_finally, try_except, bind.
    rewrite setup_run, calls_run.
    rewrite animation_loop_undisturbed by apply rotated_alive.
    reflexivity.
  - cbn [app]. rewrite draw_all_app, <- last_visit.
    apply draw_loop_ops. unfold setup_ops.
    cbn [draw_all fold_left draw enable_synchronized_mode app].
    apply draw_render_frame.
Qed.

(** ** One frame; the modes of the terminal *)

Lemma cycle_take_single (f : Frame) (k : nat) :
  cycle_take k (cycle ([] ++ [f])) = repeat f k.
Proof.
  rewrite cycle_take_rotated. cbn [List.length].
  induction k as [|k IH]; trivial.
  rewrite seq_S, map_app, IH. cbn [map].
  rewrite Nat.mod_1_r. cbn [nth].
  clear. induction k as [|k IH]; trivial. cbn [repeat app]. now rewrite IH.
Qed.

Lemma loop_ops_same (delay : Q) (nm content : string) (k : nat) :
  loop_ops delay (Frame_init nm content) (repeat (Frame_init nm content) k)
  = concat (repeat [Sleep delay; Flush] k).
Proof.
  induction k as [|k IH]; trivial.
  cbn [repeat loop_ops concat]. now rewrite render_frame_difference_self, IH.
Qed.

(** X4. An animation of one frame draws it once: after the full render
    every iteration of the loop is a sleep and a flush and nothing else,
    no cursor move, erase or write. *)
Theorem run_animation_single_frame (delay : Q) (nm content : string) (k : nat) :
  let f := Frame_init nm content in
  run_animation (mkRenderer delay [f]) k (mkWorld [] None)
  = (Running,
     mkWorld (setup_ops f ++ concat (repeat [Sleep delay; Flush] k)) None).
Proof.
  intros f. unfold run_animation. cbn [frames frame_delay].
  unfold try_finally, try_except, bind.
  rewrite setup_run, calls_run.
  rewrite animation_loop_undisturbed by apply rotated_alive.
  subst f. now rewrite cycle_take_single, loop_ops_same.
Qed.

Lemma no_mode_in_rows {A} (f : A -> list op) (l : list A) :
  (forall x, filter is_mode (f x) = []) -> filter is_mode (flat_map f l) = [].
Proof.
  intros Hf. induction l as [|x l IH]; simpl; trivial.
  now rewrite filter_app, Hf, IH.
Qed.

Lemma render_frame_no_mode (f : Frame) : filter is_mode (render_frame f) = [].
Proof.
  unfold render_frame. cbn [app filter is_mode].
  rewrite filter_app, no_mode_in_rows; trivial.
  now intros [y line].
Qed.

Lemma render_frame_difference_no_mode (current next_frame : Frame) :
  filter is_mode (render_frame_difference current next_frame) = [].
Proof.
  unfold render_frame_difference. cbv zeta.
  rewrite !filter_app, no_mode_in_rows.
  - destruct (height next_frame <? height current); trivial.
    now rewrite no_mode_in_rows.
  - intros y. unfold render_row_difference.
    destruct (truthy _); trivial. now destruct (get_line next_frame y).
Qed.

Lemma loop_ops_no_mode (delay : Q) (visits : list Frame) :
  forall current, filter is_mode (loop_ops delay current visits) = [].
Proof.
  induction visits as [|v visits IH]; intros current; trivial.
  cbn [loop_ops filter is_mode].
  now rewrite filter_app, render_frame_difference_no_mode, IH.
Qed.

(** X5. Synchronized-update mode is switched on once for the whole
    playback, not once per frame: however long an undisturbed run has
    gone on, the only mode calls in its trace are the hide-cursor and the
    enable of setup; the cursor is never shown again and the mode is never
    switched off while the loop runs. *)
Theorem run_animation_modes (delay : Q) (frame0 : Frame) (rest : list Frame)
    (k : nat) :
  exists t,
    run_animation (mkRenderer delay (frame0 :: rest)) k (mkWorld [] None)
    = (Running, mkWorld t None)
    /\ filter is_mode t = [HideCursor; EnableSync].
Proof.
  eexists. split.
  - unfold run_animation. cbn [frames frame_delay].
    unfold try_finally, try_except, bind.
    rewrite setup_run, calls_run.
    rewrite animation_loop_undisturbed by apply rotated_alive.
    reflexivity.
  - cbn [app]. rewrite filter_app, loop_ops_no_mode, app_nil_r.
    unfold setup_ops. cbn [enable_synchronized_mode app filter is_mode].
    now rewrite render_frame_no_mode.
Qed.

(** ** main and the interrupt *)

Lemma run_animation_signal (delay : Q) (frame0 : Frame) (rest : list Frame)
    (t : list op) (m fuel : nat) :
  (m <= fuel)%nat ->
  run_animation (mkRenderer delay (frame0 :: rest)) fuel (mkWorld t (Some m))
  = (Done tt,
     mkWorld (t ++ firstn m (setup_ops frame0
                             ++ loop_ops delay frame0
                                  (cycle_take fuel (cycle (rest ++ [frame0]))))
                ++ teardown_ops) None).
Proof.
  intros Hm. pose proof (setup_ops_length frame0) as Hlen.
  unfold run_animation. cbn [frames frame_delay].
  unfold try_finally, try_except, bind.
  rewrite setup_run, calls_run. rewrite firstn_app.
  destruct (Nat.ltb_spec m (List.length (setup_ops frame0))) as [Hin|Hpast].
  - cbn [is_KeyboardInterrupt]. unfold ret.
    rewrite teardown_run, calls_run.
    replace (m - List.length (setup_ops frame0))%nat with O by lia.
    cbn [firstn]. now rewrite app_nil_r, app_assoc.
  - rewrite animation_loop_interrupted by (try apply rotated_alive; lia).
    cbn [is_KeyboardInterrupt]. unfold ret.
    rewrite teardown_run, calls_run.
    rewrite (@firstn_all2 _ m (setup_ops frame0)) by exact Hpast.
    now rewrite <- !app_assoc.
Qed.

Lemma load_frames_ok_frames (fs : filesystem) (delay : Q) (folder_path : string)
    (n : Z) (r : DifferentialRenderer) :
  load_frames fs (DifferentialRenderer_init delay) folder_path = (Ok n, r) ->
  exists frame0 rest, r = mkRenderer delay (frame0 :: rest).
Proof.
  intros H.
  destruct (load_frames_ok_files _ _ _ _ _ H) as (files & Hne & Hread & Hload).
  rewrite Hload, (read_frames_ok _ _ _ Hread) in H. cbv zeta in H.
  inversion H; subst. destruct files as [|f files]; [congruence|].
  cbn [DifferentialRenderer_init frames app map with_frames frame_delay].
  now eexists _, _.
Qed.

(** X6. [main] catches [Exception] only, and [run_animation] guards only
    its own body.  After a successful load, a signal that arrives before
    playback, at the "Loaded" print or the one-second sleep, leaves [main]
    as a [KeyboardInterrupt] with no terminal control call made and no
    teardown; one that arrives later and within the budget, during
    playback, is caught there and [main] returns normally after teardown. *)
Theorem main_interrupt (fs : filesystem) (n : Z) (r : DifferentialRenderer)
    (fuel m : nat) :
  load_frames fs (DifferentialRenderer_init (1 # 50)) animation_folder = (Ok n, r) ->
  ((m < 2)%nat ->
   main fs fuel (mkWorld [] (Some m))
   = (Raised KeyboardInterrupt,
      mkWorld (firstn m [Print (loaded_notice n); Sleep 1]) None))
  /\ ((2 <= m <= fuel + 2)%nat ->
      exists t,
        main fs fuel (mkWorld [] (Some m))
        = (Done tt,
           mkWorld ([Print (loaded_notice n); Sleep 1] ++ t ++ teardown_ops) None)).
Proof.
  intros Hload. unfold main. cbv zeta.
  change "ghostty-animation-frames/" with animation_folder. rewrite Hload.
  fold (loaded_notice n). split.
  - intros Hm. destruct m as [|[|m]]; [reflexivity | reflexivity | lia].
  - intros Hm. destruct m as [|[|m]]; [lia | lia |].
    destruct (load_frames_ok_frames _ _ _ _ _ Hload) as (frame0 & rest & ->).
    unfold try_except, bind, call. cbn [sigint trace app].
    rewrite run_animation_signal by lia.
    eexists. reflexivity.
Qed.

Lemma main_interrupt_witness :
  main two_frames_dir 3 (mkWorld [] (Some 1%nat))
  = (Raised KeyboardInterrupt, mkWorld [Print "Loaded 2 frames. Starting animation..."] None)
  /\ exists t,
       main two_frames_dir 3 (mkWorld [] (Some 4%nat))
       = (Done tt, mkWorld ([Print (loaded_notice 2); Sleep 1] ++ t ++ teardown_ops) None).
Proof.
  split.
  - apply (main_interrupt two_frames_dir 2 _ 3 1 eq_refl). lia.
  - apply (main_interrupt two_frames_dir 2 _ 3 4 eq_refl). lia.
Defined.

(** ** Loads that fail *)

Lemma read_frames_stops (fs : filesystem) (folder_path : string)
    (done : list string) (bad : string) (todo : list string) (msg : string) :
  Forall (readable fs folder_path) done ->
  read_text fs (path_join folder_path bad) = Failure msg ->
  forall self,
    read_frames fs folder_path (done ++ bad :: todo) self
    = (Err (FileError msg),
       with_frames self
         (frames self ++ map (fun f => Frame_init f (content_of fs folder_path f)) done)).
Proof.
  intros Hdone Hbad.
  induction Hdone as [|f done [content Hf] _ IH]; intros self.
  - cbn [app read_frames map]. now rewrite Hbad, with_frames_same.
  - cbn [app read_frames map]. rewrite Hf, IH.
    unfold with_frames, content_of. cbn [frames frame_delay].
    now rewrite Hf, <- app_assoc.
Qed.

(** X7. [load_frames] is not all-or-nothing.  When it raises a
    [ValueError] (no frame files, or a name without an integer index) the
    renderer's frames are as before; when a file cannot be read, the
    frames of the files read before it, in index order, stay appended. *)
Theorem load_frames_failure (fs : filesystem) (self : DifferentialRenderer)
    (folder_path : string) :
  (forall msg self',
     load_frames fs self folder_path = (Err (ValueError msg), self') ->
     self' = self)
  /\ (forall (entries done : list string) (bad : string)
             (todo : list string) (msg : string),
        listdir fs (getcwd fs ++ "/" ++ folder_path) = Success entries ->
        sorted_by_index (filter is_frame_file entries)
        = Ok (done ++ bad :: todo)%list ->
        Forall (readable fs folder_path) done ->
        read_text fs (path_join folder_path bad) = Failure msg ->
        load_frames fs self folder_path
        = (Err (FileError msg),
           with_frames self
             (frames self
              ++ map (fun f => Frame_init f (content_of fs folder_path f)) done))).
Proof.
  split.
  - intros msg self'. unfold load_frames.
    destruct (listdir fs _) as [entries|m]; [|discriminate].
    destruct (sorted_by_index _) as [[|f files]|e].
    + intros H. now inversion H.
    + intros H. exfalso. revert H.
      generalize (f :: files) as fl. intros fl. revert self.
      induction fl as [|g fl IH]; intros self; cbn [read_frames]; [discriminate|].
      destruct (read_text fs (path_join folder_path g)); [apply IH|discriminate].
    + intros H. now inversion H.
  - intros entries done bad todo msg Hls Hsort Hdone Hbad.
    rewrite (load_frames_unfold _ _ _ _ Hls), Hsort.
    rewrite <- (read_frames_stops fs folder_path done bad todo msg Hdone Hbad).
    now destruct done.
Qed.

Lemma load_frames_failure_witness :
  load_frames unnumbered_dir (with_frames (DifferentialRenderer_init (1 # 50))
                                [Frame_init "old" "o"]) animation_folder
  = (Err (ValueError "invalid literal for int() with base 10: 'x'"),
     with_frames (DifferentialRenderer_init (1 # 50)) [Frame_init "old" "o"])
  /\ load_frames broken_dir (DifferentialRenderer_init (1 # 50)) animation_folder
     = (Err (FileError "[Errno 13] Permission denied"),
        with_frames (DifferentialRenderer_init (1 # 50))
                    [Frame_init "frame_cleaned_1.txt" "a"]).
Proof.
  split.
  - destruct (load_frames unnumbered_dir
                (with_frames (DifferentialRenderer_init (1 # 50))
                             [Frame_init "old" "o"]) animation_folder)
      as [res self'] eqn:E.
    assert (Hres : res = Err (ValueError "invalid literal for int() with base 10: 'x'"))
      by (vm_compute in E; congruence).
    subst res. f_equal.
    exact (proj1 (load_frames_failure unnumbered_dir _ animation_folder) _ _ E).
  - apply (proj2 (load_frames_failure broken_dir
                    (DifferentialRenderer_init (1 # 50)) animation_folder)
             ["frame_cleaned_2.txt"; "frame_cleaned_1.txt"]
             ["frame_cleaned_1.txt"] "frame_cleaned_2.txt" []
             "[Errno 13] Permission denied").
    + reflexivity.
    + reflexivity.
    + repeat constructor. now exists "a".
    + reflexivity.
Defined.

(** ** The order of the loaded frames *)

Lemma Permutation_filter {A} (P : A -> bool) (l l' : list A) :
  Permutation l l' -> Permutation (filter P l) (filter P l').
Proof.
  induction 1 as [|x l l' _ IH|x y l|l l' l'' _ IH1 _ IH2]; simpl.
  - constructor.
  - destruct (P x); [now constructor|exact IH].
  - destruct (P x), (P y); try reflexivity. apply perm_swap.
  - now transitivity (filter P l').
Qed.

Lemma strictly_sorted (l : list string) :
  StronglySorted (fun a b => index_of a <= index_of b) l ->
  NoDup (map index_of l) ->
  StronglySorted index_lt l.
Proof.
  induction 1 as [|a l Hs IH Ha]; intros Hnd; constructor.
  - apply IH. now inversion Hnd.
  - inversion Hnd as [|? ? Hnotin _]; subst.
    rewrite Forall_forall in *. intros b Hb. unfold index_lt.
    specialize (Ha b Hb).
    assert (index_of a <> index_of b); [|lia].
    intros Heq. apply Hnotin. rewrite Heq. now apply in_map.
Qed.

(** Two lists with the same elements, both in strictly ascending order of
    index, are the same list. *)
Lemma strictly_sorted_unique (l : list string) :
  forall l',
    Permutation l l' ->
    StronglySorted index_lt l -> StronglySorted index_lt l' -> l = l'.
Proof.
  induction l as [|a l IH]; intros l' Hp Hs Hs'.
  - now apply Permutation_nil in Hp.
  - destruct l' as [|b l'].
    + apply Permutation_sym, Permutation_nil in Hp. discriminate.
    + inversion Hs as [|? ? Hsl Ha]; inversion Hs' as [|? ? Hsl' Hb]; subst.
      rewrite Forall_forall in Ha, Hb.
      assert (Hab : a = b).
      { assert (Hin : In a (b :: l')) by (apply (Permutation_in _ Hp); now left).
        assert (Hin' : In b (a :: l))
          by (apply (Permutation_in _ (Permutation_sym Hp)); now left).
        destruct Hin as [->|Hin]; trivial.
        destruct Hin' as [->|Hin']; trivial.
        specialize (Ha b Hin'). specialize (Hb a Hin).
        unfold index_lt in *. lia. }
      subst b. f_equal. apply IH; trivial.
      now apply Permutation_cons_inv in Hp.
Qed.

Lemma has_index_perm (xs ys : list string) :
  Permutation xs ys -> Forall has_index xs -> Forall has_index ys.
Proof.
  intros Hp H. rewrite Forall_forall in *. intros y Hy. apply H.
  now apply (Permutation_in _ (Permutation_sym Hp)).
Qed.

Lemma sorted_by_index_listing (xs ys : list string) :
  Permutation xs ys ->
  Forall has_index xs ->
  NoDup (map index_of xs) ->
  sorted_by_index xs = sorted_by_index ys.
Proof.
  intros Hp Hidx Hnd.
  destruct (sorted_by_index_ok xs Hidx) as (l & Hl & Hpl & Hsl).
  destruct (sorted_by_index_ok ys (has_index_perm xs ys Hp Hidx))
    as (l' & Hl' & Hpl' & Hsl').
  rewrite Hl, Hl'. f_equal. apply strictly_sorted_unique.
  - now rewrite Hpl, Hpl'.
  - apply strictly_sorted; trivial.
    apply (Permutation_NoDup (l := map index_of xs)); trivial.
    now apply Permutation_map, Permutation_sym.
  - apply strictly_sorted; trivial.
    apply (Permutation_NoDup (l := map index_of xs)); trivial.
    apply Permutation_map. now rewrite Hpl'.
Qed.

Lemma read_frames_same_files (cwd : string)
    (ls ls' : string -> io (list string)) (rd : string -> io string)
    (folder_path : string) (files : list string) :
  forall self,
    read_frames (mkFilesystem cwd ls rd) folder_path files self
    = read_frames (mkFilesystem cwd ls' rd) folder_path files self.
Proof.
  induction files as [|f files IH]; intros self; cbn [read_frames read_text];
    trivial.
  destruct (rd (path_join folder_path f)); trivial.
Qed.

(** X8. The order in which the directory lists its entries does not
    matter when the frame files carry distinct integer indices: two
    listings of the same entries load the same frames in the same order,
    and fail alike when a file cannot be read. *)
Theorem load_frames_listing_order (cwd : string)
    (ls ls' : string -> io (list string)) (rd : string -> io string)
    (self : DifferentialRenderer) (folder_path : string)
    (entries entries' : list string) :
  ls (cwd ++ "/" ++ folder_path) = Success entries ->
  ls' (cwd ++ "/" ++ folder_path) = Success entries' ->
  Permutation entries entries' ->
  Forall has_index (filter is_frame_file entries) ->
  NoDup (map index_of (filter is_frame_file entries)) ->
  load_frames (mkFilesystem cwd ls rd) self folder_path
  = load_frames (mkFilesystem cwd ls' rd) self folder_path.
Proof.
  intros Hls Hls' Hp Hidx Hnd.
  rewrite (load_frames_unfold (mkFilesystem cwd ls rd) self folder_path entries Hls).
  rewrite (load_frames_unfold (mkFilesystem cwd ls' rd) self folder_path entries' Hls').
  rewrite <- (sorted_by_index_listing _ _ (Permutation_filter is_frame_file _ _ Hp)
                Hidx Hnd).
  destruct (sorted_by_index (filter is_frame_file entries)) as [[|f files]|e];
    trivial.
  apply read_frames_same_files.
Qed.

Lemma load_frames_listing_order_witness :
  load_frames two_frames_dir (DifferentialRenderer_init (1 # 50)) animation_folder
  = load_frames two_frames_dir_relisted (DifferentialRenderer_init (1 # 50))
                animation_folder.
Proof.
  apply (load_frames_listing_order "/home/u" _ _ _ _ animation_folder
           ["frame_cleaned_10.txt"; "notes.md"; "frame_cleaned_2.txt"]
           ["frame_cleaned_2.txt"; "frame_cleaned_10.txt"; "notes.md"]).
  - reflexivity.
  - reflexivity.
  - apply Permutation_cons_app with (l1 := ["frame_cleaned_2.txt"]).
    apply perm_swap.
  - repeat constructor; eexists; vm_compute; reflexivity.
  - vm_compute. repeat constructor; simpl; intuition discriminate.
Defined.

Lemma insert_keyed_stable (k : Z) (x : Z * string) (l : list (Z * string)) :
  filter (fun p => fst p =? k) (insert_keyed x l)
  = filter (fun p => fst p =? k) (x :: l).
Proof.
  induction l as [|y l IH]; trivial.
  cbn [insert_keyed]. destruct (Z.leb_spec (fst x) (fst y)) as [Hle|Hgt]; trivial.
  cbn [filter] in *. rewrite IH.
  destruct (Z.eqb_spec (fst x) k), (Z.eqb_spec (fst y) k); trivial. lia.
Qed.

Lemma sort_keyed_stable (k : Z) (l : list (Z * string)) :
  filter (fun p => fst p =? k) (sort_keyed l) = filter (fun p => fst p =? k) l.
Proof.
  induction l as [|x l IH]; trivial.
  cbn [sort_keyed fold_right]. fold (sort_keyed l).
  rewrite insert_keyed_stable. cbn [filter]. now rewrite IH.
Qed.

(** X9. The sort is stable: frame files with the same index (2 and 02,
    say) are loaded in the order in which the directory listed them. *)
Theorem sorted_by_index_stable (xs ordered : list string) (k : Z) :
  sorted_by_index xs = Ok ordered ->
  filter (same_index k) ordered = filter (same_index k) xs.
Proof.
  unfold sorted_by_index. destruct (with_keys xs) as [ks|e] eqn:E; [|discriminate].
  intros H. inversion H; subst. clear H.
  assert (Hks : ks = map (fun x => (index_of x, x)) xs).
  { revert ks E. induction xs as [|x xs IH]; intros ks E; cbn [with_keys] in E.
    - now inversion E.
    - destruct (frame_index x) as [i|] eqn:F; [|discriminate].
      destruct (with_keys xs) as [ks'|]; [|discriminate].
      inversion E; subst. cbn [map]. rewrite <- (IH ks' eq_refl).
      unfold index_of. now rewrite F. }
  assert (Hkeys : forall l : list (Z * string),
            Forall (fun p => fst p = index_of (snd p)) l ->
            filter (same_index k) (map snd l)
            = map snd (filter (fun p => fst p =? k) l)).
  { induction 1 as [|p l Hp _ IH]; trivial.
    cbn [map filter]. unfold same_index at 1. rewrite <- Hp.
    destruct (fst p =? k); cbn [map]; now rewrite IH. }
  rewrite Hkeys, sort_keyed_stable, <- Hkeys.
  - subst ks. rewrite map_map. cbn [snd]. now rewrite map_id.
  - subst ks. rewrite Forall_forall. intros p Hp.
    apply in_map_iff in Hp as (x & <- & _). reflexivity.
  - rewrite Forall_forall. intros p Hp.
    apply (Permutation_in _ (sort_keyed_perm ks)) in Hp.
    subst ks. apply in_map_iff in Hp as (x & <- & _). reflexivity.
Qed.

Lemma sorted_by_index_stable_witness :
  sorted_by_index ["frame_cleaned_10.txt"; "frame_cleaned_2.txt";
                   "frame_cleaned_02.txt"; "frame_cleaned_1.txt"]
  = Ok ["frame_cleaned_1.txt"; "frame_cleaned_2.txt";
        "frame_cleaned_02.txt"; "frame_cleaned_10.txt"]
  /\ filter (same_index 2)
       ["frame_cleaned_1.txt"; "frame_cleaned_2.txt";
        "frame_cleaned_02.txt"; "frame_cleaned_10.txt"]
     = ["frame_cleaned_2.txt"; "frame_cleaned_02.txt"].
Proof.
  split; [reflexivity|].
  rewrite (sorted_by_index_stable
             ["frame_cleaned_10.txt"; "frame_cleaned_2.txt";
              "frame_cleaned_02.txt"; "frame_cleaned_1.txt"]
             ["frame_cleaned_1.txt"; "frame_cleaned_2.txt";
              "frame_cleaned_02.txt"; "frame_cleaned_10.txt"] 2 eq_refl).
  reflexivity.
Defined.

(** ** Splitting a text into rows *)

Lemma all_chars_app (P : ascii -> bool) (a b : string) :
  all_chars P (a ++ b) = all_chars P a && all_chars P b.
Proof.
  induction a as [|c a IH]; simpl; trivial. now rewrite IH, andb_assoc.
Qed.

Lemma splitlines_from_unbroken (n : nat) :
  forall s acc,
    (String.length s <= n)%nat -> unbroken acc = true ->
    Forall (fun row => unbroken row = true) (Py.splitlines_from acc s).
Proof.
  induction n as [|n IH]; intros s acc Hn Hacc.
  - destruct s; [|simpl in Hn; lia]. simpl.
    destruct acc; repeat constructor; trivial.
  - destruct s as [|c rest]; simpl.
    + destruct acc; repeat constructor; trivial.
    + simpl in Hn. destruct (Py.is_linebreak c) eqn:Hc.
      * constructor; trivial.
        destruct rest as [|d rest']; [constructor|].
        destruct (Ascii.eqb c Py.CR && Ascii.eqb d Py.LF).
        -- apply IH; trivial. simpl in Hn. lia.
        -- apply IH; trivial. lia.
      * apply IH; [lia|]. unfold unbroken in *.
        rewrite all_chars_app, Hacc. simpl. now rewrite Hc.
Qed.

Lemma splitlines_from_row (row rest : string) :
  unbroken row = true ->
  forall acc,
    Py.splitlines_from acc (row ++ String Py.LF rest)
    = (acc ++ row) :: Py.splitlines_from "" rest.
Proof.
  induction row as [|c row IH]; intros Hrow acc.
  - rewrite string_app_nil_r. simpl. f_equal. now destruct rest.
  - unfold unbroken in Hrow. simpl in Hrow.
    apply andb_true_iff in Hrow as [Hc Hrow].
    simpl. apply negb_true_iff in Hc. rewrite Hc.
    rewrite (IH Hrow), string_app_assoc. reflexivity.
Qed.

Lemma splitlines_unlines_rows (rows : list string) :
  Forall (fun row => unbroken row = true) rows ->
  Py.splitlines (unlines rows) = rows.
Proof.
  unfold Py.splitlines. induction 1 as [|row rows Hrow _ IH]; trivial.
  cbn [unlines]. now rewrite (splitlines_from_row row _ Hrow), IH.
Qed.

(** X10. No row of a frame holds a line-break character: [splitlines]
    cuts at every one of them, so the rows of [Frame_init] are free of
    \n, \r, \v, \f, 0x1c, 0x1d, 0x1e and 0x85. *)
Theorem Frame_rows_unbroken (nm content : string) :
  Forall (fun row => unbroken row = true) (lines (Frame_init nm content)).
Proof.
  cbn [lines Frame_init]. unfold Py.splitlines.
  now apply (splitlines_from_unbroken (String.length content)).
Qed.

(** X11. Rows survive the trip through a text: a frame built from rows
    without line breaks, written out with a newline after each, has
    exactly those rows (empty rows included) and their number as height;
    and writing out the rows of any frame and building a frame again gives
    the same rows. *)
Theorem Frame_init_unlines (nm : string) (rows : list string) (content : string) :
  (Forall (fun row => unbroken row = true) rows ->
   lines (Frame_init nm (unlines rows)) = rows
   /\ height (Frame_init nm (unlines rows)) = Z.of_nat (List.length rows))
  /\ lines (Frame_init nm (unlines (lines (Frame_init nm content))))
     = lines (Frame_init nm content).
Proof.
  cbn [lines height Frame_init]. split.
  - intros H. now rewrite (splitlines_unlines_rows rows H).
  - apply splitlines_unlines_rows. unfold Py.splitlines.
    now apply (splitlines_from_unbroken (String.length content)).
Qed.

Lemma Frame_init_unlines_witness :
  lines (Frame_init "f" (unlines ["ab"; ""; "c"])) = ["ab"; ""; "c"]
  /\ height (Frame_init "f" (unlines ["ab"; ""; "c"])) = 3.
Proof.
  apply (proj1 (Frame_init_unlines "f" ["ab"; ""; "c"] "")).
  repeat constructor.
Defined.

(** ** Stripping escape sequences *)

Lemma escape_free_no_match (c : ascii) (rest : string) :
  Ascii.eqb c Py.ESC = false -> escape_match_len (String c rest) = None.
Proof. intros H. unfold escape_match_len. destruct rest; now rewrite ?H. Qed.

Lemma strip_from_length (s : string) :
  forall skip, (String.length (strip_from skip s) <= String.length s)%nat.
Proof.
  induction s as [|c s IH]; intros skip; cbn [strip_from String.length]; [lia|].
  destruct skip as [|k].
  - destruct (escape_match_len (String c s)) as [n|].
    + specialize (IH (Nat.pred n)). lia.
    + cbn [String.length]. specialize (IH O). lia.
  - specialize (IH k). lia.
Qed.

Lemma strip_from_skip (a rest : string) :
  strip_from (String.length a) (a ++ rest) = strip_from 0 rest.
Proof. induction a as [|c a IH]; trivial. Qed.

Lemma between_disjoint (lo hi lo' hi' : nat) (c : ascii) :
  (hi < lo')%nat ->
  (Py.between lo hi c = true -> Py.between lo' hi' c = false)
  /\ (Py.between lo' hi' c = true -> Py.between lo hi c = false).
Proof.
  intros H. unfold Py.between.
  destruct (Nat.leb_spec lo (Py.code c)), (Nat.leb_spec (Py.code c) hi),
           (Nat.leb_spec lo' (Py.code c)), (Nat.leb_spec (Py.code c) hi');
    cbn [andb]; split; intros; trivial; try discriminate; lia.
Qed.

Lemma csi_classes (c : ascii) :
  (is_csi_final c = true -> is_csi_inter c = false /\ is_csi_param c = false)
  /\ (is_csi_inter c = true -> is_csi_param c = false).
Proof.
  unfold is_csi_final, is_csi_inter, is_csi_param.
  split; [intros Hc; split|intros Hc].
  - now apply (between_disjoint 32 47 64 126 c ltac:(lia)).
  - now apply (between_disjoint 48 63 64 126 c ltac:(lia)).
  - now apply (between_disjoint 32 47 48 63 c ltac:(lia)).
Qed.

Lemma csi_inter_len_ok (inter : string) (final : ascii) (rest : string) :
  all_chars is_csi_inter inter = true -> is_csi_final final = true ->
  csi_inter_len (inter ++ String final rest) = Some (S (String.length inter)).
Proof.
  intros Hi Hf. induction inter as [|c inter IH]; cbn [append csi_inter_len].
  - now rewrite Hf, (proj1 (proj1 (csi_classes final) Hf)).
  - cbn [all_chars] in Hi. apply andb_true_iff in Hi as [Hc Hi].
    rewrite Hc, (IH Hi). reflexivity.
Qed.

Lemma csi_param_len_ok (param inter : string) (final : ascii) (rest : string) :
  all_chars is_csi_param param = true ->
  all_chars is_csi_inter inter = true -> is_csi_final final = true ->
  csi_param_len (param ++ inter ++ String final rest)
  = Some (String.length param + S (String.length inter))%nat.
Proof.
  intros Hp Hi Hf. induction param as [|c param IH]; cbn [append].
  - cbn [String.length Nat.add].
    rewrite <- (csi_inter_len_ok inter final rest Hi Hf).
    destruct inter as [|d inter]; cbn [append csi_param_len].
    + now rewrite (proj2 (proj1 (csi_classes final) Hf)).
    + cbn [all_chars] in Hi. apply andb_true_iff in Hi as [Hd _].
      now rewrite (proj2 (csi_classes d) Hd).
  - cbn [all_chars] in Hp. apply andb_true_iff in Hp as [Hc Hp].
    cbn [csi_param_len]. rewrite Hc, (IH Hp). reflexivity.
Qed.

Lemma string_length_app (a b : string) :
  String.length (a ++ b) = (String.length a + String.length b)%nat.
Proof. induction a as [|c a IH]; simpl; congruence. Qed.

Lemma strip_csi (param inter : string) (final : ascii) (rest : string) :
  all_chars is_csi_param param = true ->
  all_chars is_csi_inter inter = true -> is_csi_final final = true ->
  strip_ansi (esc ("[" ++ param ++ inter ++ String final rest))
  = strip_ansi rest.
Proof.
  intros Hp Hi Hf. unfold strip_ansi, esc.
  cbn [append strip_from escape_match_len].
  replace (Ascii.eqb Py.ESC Py.ESC) with true by reflexivity.
  replace (is_two_char_final "[") with false by reflexivity.
  replace (Ascii.eqb "[" "[") with true by reflexivity.
  rewrite (csi_param_len_ok param inter final rest Hp Hi Hf).
  cbn [option_map Nat.pred strip_from].
  replace (param ++ inter ++ String final rest)
    with ((param ++ inter ++ String final "") ++ rest)
    by (now rewrite !string_app_assoc).
  replace (String.length param + S (String.length inter))%nat
    with (String.length (param ++ inter ++ String final "")).
  - apply strip_from_skip.
  - rewrite !string_length_app. simpl. lia.
Qed.

Lemma strip_escape_free (text : string) :
  escape_free text = true -> strip_ansi text = text.
Proof.
  unfold strip_ansi, escape_free. induction text as [|c text IH]; trivial.
  cbn [all_chars]. intros H. apply andb_true_iff in H as [Hc H].
  apply negb_true_iff in Hc.
  cbn [strip_from]. rewrite (escape_free_no_match c text Hc).
  now rewrite (IH H).
Qed.

(** X12. [strip_ansi] leaves text without an ESC character as it is, and
    never makes a text longer. *)
Theorem strip_ansi_plain (text : string) :
  (escape_free text = true -> strip_ansi text = text)
  /\ (String.length (strip_ansi text) <= String.length text)%nat.
Proof. split; [apply strip_escape_free | apply strip_from_length]. Qed.

Lemma strip_ansi_plain_witness : strip_ansi "plain text" = "plain text".
Proof. apply (proj1 (strip_ansi_plain "plain text")). reflexivity. Defined.

(** X13. [strip_ansi] removes a whole CSI sequence: ESC, "[", any
    parameter characters (0x30-0x3f), any intermediate characters
    (0x20-0x2f) and one final character (0x40-0x7e) vanish, and the text
    after them is stripped in turn. *)
Theorem strip_ansi_csi (param inter : string) (final : ascii) (rest : string) :
  all_chars is_csi_param param = true ->
  all_chars is_csi_inter inter = true ->
  is_csi_final final = true ->
  strip_ansi (esc ("[" ++ param ++ inter ++ String final rest))
  = strip_ansi rest.
Proof. apply strip_csi. Qed.

Lemma strip_ansi_csi_witness :
  strip_ansi (esc ("[" ++ "38;5;196" ++ "" ++ String "m" "red")) = "red".
Proof.
  rewrite (strip_ansi_csi "38;5;196" "" "m" "red" eq_refl eq_refl eq_refl).
  reflexivity.
Defined.

(** ** The width of a frame *)

Lemma max_of_upper (xs : list Z) :
  forall x y, In y (x :: xs) -> y <= max_of x xs.
Proof.
  unfold max_of. induction xs as [|a xs IH]; intros x y Hy; cbn [fold_left].
  - destruct Hy as [<-|[]]. lia.
  - destruct Hy as [<-|[<-|Hy]].
    + etransitivity; [|apply (IH (Z.max x a) (Z.max x a)); now left]. lia.
    + etransitivity; [|apply (IH (Z.max x a) (Z.max x a)); now left]. lia.
    + apply IH. now right.
Qed.

Lemma max_of_in (xs : list Z) : forall x, In (max_of x xs) (x :: xs).
Proof.
  unfold max_of. induction xs as [|a xs IH]; intros x; cbn [fold_left].
  - now left.
  - destruct (IH (Z.max x a)) as [H|H].
    + rewrite <- H. destruct (Z.max_spec x a) as [[_ ->]|[_ ->]];
        [right; now left | now left].
    + right. now right.
Qed.

(** X14. The width of a frame is the largest visible length of its rows:
    no row is wider once its escape sequences are stripped, some row is
    exactly that wide when there is a row at all, and the width is at most
    the longest raw row, with which it agrees on rows without ESC. *)
Theorem Frame_width_visible (nm content : string) :
  let f := Frame_init nm content in
  (forall row, In row (lines f) -> Py.len (strip_ansi row) <= width f)
  /\ (lines f <> [] ->
      exists row, In row (lines f) /\ width f = Py.len (strip_ansi row))
  /\ (forall bound, 0 <= bound ->
        (forall row, In row (lines f) -> Py.len row <= bound) ->
        width f <= bound)
  /\ ((forall row, In row (lines f) -> escape_free row = true) ->
      forall row, In row (lines f) -> Py.len row <= width f).
Proof.
  intros f. subst f. cbn [lines width Frame_init].
  set (ls := Py.splitlines content).
  assert (Hup : forall row, In row ls ->
                  Py.len (strip_ansi row)
                  <= match map (fun line => Py.len (strip_ansi line)) ls with
                     | [] => 0
                     | w :: ws => max_of w ws
                     end).
  { intros row Hrow.
    apply (in_map (fun line => Py.len (strip_ansi line))) in Hrow.
    destruct (map (fun line => Py.len (strip_ansi line)) ls) as [|w ws];
      [contradiction|].
    now apply max_of_upper. }
  assert (Hat : ls <> [] ->
                exists row, In row ls
                  /\ match map (fun line => Py.len (strip_ansi line)) ls with
                     | [] => 0
                     | w :: ws => max_of w ws
                     end = Py.len (strip_ansi row)).
  { intros Hne.
    destruct (map (fun line => Py.len (strip_ansi line)) ls) as [|w ws] eqn:E.
    - destruct ls; [congruence|discriminate].
    - pose proof (max_of_in ws w) as Hin. rewrite <- E in Hin.
      apply in_map_iff in Hin as (row & Hrow & Hin). now exists row. }
  split; [exact Hup|]. split; [exact Hat|]. split.
  - intros bound Hb Hrows. destruct ls as [|l ls'] eqn:E.
    + exact Hb.
    + destruct Hat as (row & Hin & ->); [discriminate|].
      specialize (Hrows row Hin).
      pose proof (strip_from_length row 0) as Hlen.
      unfold Py.len, strip_ansi in *. lia.
  - intros Hfree row Hrow.
    rewrite <- (strip_escape_free row (Hfree row Hrow)) at 1.
    now apply Hup.
Qed.

Lemma Frame_width_visible_witness :
  let f := Frame_init "f" (esc "[31mred" ++ String Py.LF "ab") in
  width f = 3 /\ Py.len (strip_ansi "ab") <= width f.
Proof.
  intros f. split; [reflexivity|].
  apply (proj1 (Frame_width_visible "f" (esc "[31mred" ++ String Py.LF "ab"))).
  right. now left.
Defined.

(** ** Decimal numbers *)






















(** ** The control sequences *)




(** ** Frames that grow or shrink *)

Lemma render_frame_difference_rows (n1 c1 n2 c2 : string) :
  render_frame_difference (Frame_init n1 c1) (Frame_init n2 c2)
  = render_diff_spec (Py.splitlines c1) (Py.splitlines c2).
Proof.
  unfold render_frame_difference, render_diff_spec.
  cbn [height lines Frame_init]. cbv zeta.
  rewrite <- Nat2Z.inj_max.
  change 0 with (Z.of_nat 0). rewrite range_of_nat, Nat.sub_0_r, flat_map_map.
  rewrite (flat_map_ext _ _ (render_row_difference_spec n1 c1 n2 c2)).
  f_equal. f_equal.
  destruct (Nat.ltb_spec (List.length (Py.splitlines c2))
                         (List.length (Py.splitlines c1))) as [Hlt|Hge].
  - replace (_ <? _) with true by (symmetry; apply Z.ltb_lt; lia).
    now rewrite range_of_nat, flat_map_map.
  - now replace (_ <? _) with false by (symmetry; apply Z.ltb_ge; lia).
Qed.

Lemma flat_map_in_ext {A B} (f g : A -> list B) (l : list A) :
  (forall x, In x l -> f x = g x) -> flat_map f l = flat_map g l.
Proof.
  induction l as [|x l IH]; intros H; trivial. cbn [flat_map].
  rewrite (H x (or_introl eq_refl)), IH; trivial.
  intros y Hy. apply H. now right.
Qed.

Lemma flat_map_in_nil {A B} (f : A -> list B) (l : list A) :
  (forall x, In x l -> f x = []) -> flat_map f l = [].
Proof.
  intros H. rewrite (flat_map_in_ext f (fun _ => []) l H).
  now apply flat_map_nil.
Qed.

(** The rows two lists share at their start cost the diff pass nothing. *)
Lemma common_rows_quiet (n : nat) (la lb : list string) :
  (forall y, (y < n)%nat -> nth_error la y = nth_error lb y) ->
  flat_map
    (fun y =>
       if row_changed (nth_error la y) (nth_error lb y) then
         match nth_error lb y with
         | Some row => [MoveCursor 0 (Z.of_nat y); EraseLine; Text row]
         | None => [MoveCursor 0 (Z.of_nat y); EraseLine]
         end
       else [])
    (seq 0 n) = [].
Proof.
  intros H. apply flat_map_in_nil. intros y Hy. apply in_seq in Hy.
  rewrite H by lia. now rewrite row_changed_same.
Qed.

(** X17. When the next frame only adds rows below those of the current
    one, the diff pass touches the added rows only: for each, in order, a
    move to its row, an erase and the row; then the flush. *)
Theorem render_frame_difference_adds_rows (n1 c1 n2 c2 : string) (extra : list string) :
  Py.splitlines c2 = (Py.splitlines c1 ++ extra)%list ->
  render_frame_difference (Frame_init n1 c1) (Frame_init n2 c2)
  = (flat_map
       (fun i => [MoveCursor 0 (height (Frame_init n1 c1) + Z.of_nat i);
                  EraseLine; Text (nth i extra "")])
       (seq 0 (List.length extra))
     ++ [Flush])%list.
Proof.
  intros Hgrow. rewrite render_frame_difference_rows, Hgrow.
  set (l := Py.splitlines c1). unfold render_diff_spec. cbv zeta.
  rewrite length_app.
  replace (Nat.max (List.length l) (List.length l + List.length extra))
    with (List.length l + List.length extra)%nat by lia.
  replace (List.length l + List.length extra <? List.length l)%nat with false
    by (symmetry; apply Nat.ltb_ge; lia).
  rewrite seq_app, flat_map_app. cbn [Nat.add app].
  rewrite common_rows_quiet
    by (intros y Hy; now rewrite nth_error_app1 by exact Hy).
  cbn [app]. f_equal.
  rewrite <- (Nat.add_0_r (List.length l)) at 1.
  rewrite <- seq_offset, flat_map_map.
  apply flat_map_in_ext. intros i Hi. apply in_seq in Hi.
  rewrite nth_error_app2 by lia.
  replace (nth_error l (List.length l + i)) with (@None string)
    by (symmetry; apply nth_error_None; lia).
  replace (List.length l + i - List.length l)%nat with i by lia.
  rewrite (nth_error_nth' extra "") by lia.
  cbn [row_changed height Frame_init]. fold l. now rewrite Nat2Z.inj_add.
Qed.

Lemma render_frame_difference_adds_rows_witness :
  render_frame_difference
    (Frame_init "a" ("x" ++ String Py.LF "y"))
    (Frame_init "b" ("x" ++ String Py.LF "y" ++ String Py.LF "z"
                     ++ String Py.LF "w"))
  = [MoveCursor 0 2; EraseLine; Text "z";
     MoveCursor 0 3; EraseLine; Text "w"; Flush].
Proof.
  rewrite (render_frame_difference_adds_rows
             "a" ("x" ++ String Py.LF "y")
             "b" ("x" ++ String Py.LF "y" ++ String Py.LF "z" ++ String Py.LF "w")
             ["z"; "w"] eq_refl).
  reflexivity.
Defined.

(** X18. When the next frame only drops rows from the end of the current
    one, the diff pass leaves the rows that stay alone and clears each
    dropped row twice: the moves and erases of the main loop over the
    dropped rows, the same again from the trailing loop, then the flush;
    no row is written. *)
Theorem render_frame_difference_drops_rows (n1 c1 n2 c2 : string)
    (gone : list string) :
  Py.splitlines c1 = (Py.splitlines c2 ++ gone)%list ->
  let dropped :=
    flat_map erase_row
      (range (height (Frame_init n2 c2)) (height (Frame_init n1 c1))) in
  render_frame_difference (Frame_init n1 c1) (Frame_init n2 c2)
  = (dropped ++ dropped ++ [Flush])%list.
Proof.
  intros Hshrink dropped. subst dropped.
  rewrite render_frame_difference_rows.
  cbn [height Frame_init]. rewrite Hshrink.
  set (l := Py.splitlines c2). unfold render_diff_spec. cbv zeta.
  rewrite range_of_nat, flat_map_map, length_app.
  replace (Nat.max (List.length l + List.length gone) (List.length l))
    with (List.length l + List.length gone)%nat by lia.
  rewrite seq_app, flat_map_app. cbn [Nat.add app].
  rewrite common_rows_quiet
    by (intros y Hy; now rewrite nth_error_app1 by exact Hy).
  cbn [app].
  replace (List.length l + List.length gone - List.length l)%nat
    with (List.length gone) by lia.
  f_equal.
  - apply flat_map_in_ext. intros y Hy. apply in_seq in Hy.
    replace (nth_error l y) with (@None string)
      by (symmetry; apply nth_error_None; lia).
    destruct (nth_error (l ++ gone) y) eqn:E; trivial.
    apply nth_error_None in E. rewrite length_app in E. lia.
  - f_equal. destruct (Nat.ltb_spec (List.length l)
                                    (List.length l + List.length gone)); trivial.
    replace (List.length gone) with O by lia. reflexivity.
Qed.

Lemma render_frame_difference_drops_rows_witness :
  render_frame_difference
    (Frame_init "a" ("x" ++ String Py.LF "y" ++ String Py.LF "z"))
    (Frame_init "b" "x")
  = [MoveCursor 0 1; EraseLine; MoveCursor 0 2; EraseLine;
     MoveCursor 0 1; EraseLine; MoveCursor 0 2; EraseLine; Flush].
Proof.
  rewrite (render_frame_difference_drops_rows
             "a" ("x" ++ String Py.LF "y" ++ String Py.LF "z") "b" "x"
             ["y"; "z"] eq_refl).
  reflexivity.
Defined.

(** ** The terminal after a cancelled run *)

(** X19. A cancelled run leaves the terminal clean: whenever the signal
    came, and whatever the screen held, the trace ends with the cursor
    shown and synchronized updates off as its last two mode calls, and on
    the screen every row is blank but the top one, which holds the
    "stopped" notice. *)
Theorem run_animation_leaves_clean (delay : Q) (frame0 : Frame)
    (rest : list Frame) (m fuel : nat) (s : screen) :
  (m <= fuel)%nat ->
  exists t,
    run_animation (mkRenderer delay (frame0 :: rest)) fuel (mkWorld [] (Some m))
    = (Done tt, mkWorld t None)
    /\ (forall y, row_texts (draw_all s t) y
                  = if y =? 0 then [stopped_notice] else [])
    /\ exists earlier,
         filter is_mode t = (earlier ++ [ShowCursor; DisableSync])%list.
Proof.
  intros Hm. rewrite run_animation_signal by exact Hm.
  eexists. split; [reflexivity|]. cbn [app]. split.
  - intros y. rewrite draw_all_app. unfold teardown_ops.
    cbn [app disable_synchronized_mode draw_all fold_left draw cursor_row row_texts].
    unfold set_row. now destruct (y =? 0).
  - rewrite filter_app. eexists. reflexivity.
Qed.

Lemma run_animation_leaves_clean_witness :
  exists t,
    run_animation (mkRenderer (1 # 50) [Frame_init "a" "x"; Frame_init "b" "y"]) 9
                  (mkWorld [] (Some 9%nat))
    = (Done tt, mkWorld t None)
    /\ row_texts (draw_all (mkScreen None (fun _ => ["old"])) t) 0 = [stopped_notice]
    /\ row_texts (draw_all (mkScreen None (fun _ => ["old"])) t) 1 = [].
Proof.
  destruct (run_animation_leaves_clean (1 # 50) (Frame_init "a" "x")
              [Frame_init "b" "y"] 9 9 (mkScreen None (fun _ => ["old"])) (le_n 9))
    as (t & Hrun & Hrows & _).
  exists t. split; [exact Hrun|]. split; [apply (Hrows 0) | apply (Hrows 1)].
Defined.
